(** * storagenode-docker supervisor: the worker handle, the safe-reap
      protocol, the update cycle and the start-up bootstrap.

    The Go sources are embedded shallowly.  A Go [error] is an
    [option error] ([None] is [nil]); the methods of [*Process] run in a small
    state monad over the shared handle, which also records every access to a
    mutable field together with the state of the mutex [mu] at that moment, and
    every signal sent to the operating system.  What the operating system, the
    clock and the network answer is supplied by the caller of each
    definition. *)

From Stdlib Require Import ZArith List String Ascii Bool Lia.
Import ListNotations.

Local Open Scope string_scope.
Local Open Scope list_scope.
Local Open Scope Z_scope.

(** ** Errors (errors.New and github.com/zeebo/errs classes) *)

Inductive error : Type :=
| ErrText (msg : string)
| ErrClass (class : string) (inner : error).

Module errs.
(** [Class.Wrap]: [nil] stays [nil], an error already of the class is
    returned as it is, anything else is wrapped. *)
Definition Wrap (class : string) (err : option error) : option error :=
  match err with
  | None => None
  | Some (ErrClass c inner) =>
      if String.eqb c class then Some (ErrClass c inner)
      else Some (ErrClass class (ErrClass c inner))
  | Some e => Some (ErrClass class e)
  end.

(** The package-level [errs.Wrap]: the same with no class; an error that
    has a class already is returned as it is. *)
Definition WrapPlain (err : option error) : option error :=
  match err with
  | None => None
  | Some (ErrClass c inner) => Some (ErrClass c inner)
  | Some e => Some (ErrClass "" e)
  end.

(** [errs.Combine] on two errors, as far as being [nil] goes. *)
Definition Combine (a b : option error) : option error :=
  match a, b with
  | None, None => None
  | Some e, None => Some e
  | None, Some e => Some e
  | Some e1, Some _ => Some (ErrClass "group" e1)
  end.
End errs.

Definition errProcess : string := "process".
Definition errSupervisor : string := "supervisor".
Definition errProcessAlreadyStarted : error := ErrText "process already started".
Definition contextCanceled : error := ErrText "context canceled".

(** ** Time and durations

    A [time.Time] is the instant it denotes, in nanoseconds; [UTC] changes the
    location and not the instant, and [Equal] compares instants.  The zero
    [time.Time] is instant 0.  A [time.Duration] is an int64. *)

Definition Time := Z.
Definition Duration := Z.

Module time.
Definition UTC (t : Time) : Time := t.
Definition Equal (a b : Time) : bool := Z.eqb a b.
Definition zero : Time := 0.
End time.

(** ** os.Process and exec.Cmd *)

Inductive Signal := Interrupt | Kill.

Module os.
(** A launched process has a positive identifier. *)
Record Process := { Pid : positive }.
End os.

Module exec.
Record Cmd := {
  Path : string;
  Args : list string;
  Process : option os.Process
}.

(** [exec.CommandContext ctx name arg...]: not started yet. *)
Definition CommandContext (name : string) (arg : list string) : Cmd :=
  {| Path := name; Args := name :: arg; Process := None |}.
End exec.

(** What [cmd.Start] answers: the new process or the launch error. *)
Inductive LaunchResult :=
| Launched (pid : positive)
| LaunchFailed (e : error).

(** ** The worker handle *)

Definition NodeID := N.

Record Process := {
  cmd : option exec.Cmd;
  binPath : string;
  storeDir : string;
  args : list string;
  nodeID : NodeID;
  lastRestarted : Time
}.

Definition NewProcess (nodeID : NodeID) (binPath storeDir : string)
    (args : list string) : Process :=
  {| cmd := None; binPath := binPath; storeDir := storeDir; args := args;
     nodeID := nodeID; lastRestarted := time.zero |}.

Definition set_cmd (c : option exec.Cmd) (p : Process) : Process :=
  {| cmd := c; binPath := binPath p; storeDir := storeDir p; args := args p;
     nodeID := nodeID p; lastRestarted := lastRestarted p |}.

Definition set_lastRestarted (t : Time) (p : Process) : Process :=
  {| cmd := cmd p; binPath := binPath p; storeDir := storeDir p;
     args := args p; nodeID := nodeID p; lastRestarted := t |}.

(** ** The shared state and its monad *)

Inductive Field := FCmd | FLastRestarted.
Inductive Method := MPid | MStart | MWait | MExit | MKill
                  | MSetLastRestarted | MLastRestartedTime.

(** [guarded] is whether [mu] was held when the field was touched.
    [EvSpawn] is a process created by [cmd.Start], [EvExited] a process whose
    end [cmd.Wait] has collected, [EvSignal] a signal handed to the
    operating system, [EvSleep] a call of [sync2.Sleep]. *)
Inductive Event :=
| EvCall (m : Method)
| EvLock
| EvUnlock
| EvRead (f : Field) (guarded : bool)
| EvWrite (f : Field) (guarded : bool)
| EvSpawn (pid : positive)
| EvExited (pid : positive)
| EvSignal (pid : positive) (sig : Signal)
| EvSleep (d : Duration).

(** The log has the newest event first. *)
Record Shared := {
  proc : Process;
  mu : bool;
  log : list Event
}.

(** [Starved] is the model's own: the random source handed to a definition
    held too few values. *)
Inductive Abort :=
| Panic (msg : string)
| Deadlock
| Starved.

Inductive outcome (A : Type) : Type :=
| Value (a : A) (s : Shared)
| Aborted (why : Abort) (s : Shared).
Arguments Value {A} a s.
Arguments Aborted {A} why s.

Definition M (A : Type) : Type := Shared -> outcome A.

Definition ret {A} (a : A) : M A := fun s => Value a s.

Definition bind {A B} (m : M A) (k : A -> M B) : M B :=
  fun s => match m s with
           | Value a s' => k a s'
           | Aborted w s' => Aborted w s'
           end.

Notation "x <- m ;; k" := (bind m (fun x => k))
  (at level 61, m at next level, right associativity).
Notation "m ;;; k" := (bind m (fun _ => k))
  (at level 61, right associativity).

Definition panic {A} (msg : string) : M A := fun s => Aborted (Panic msg) s.

Definition emit (e : Event) : M unit :=
  fun s => Value tt {| proc := proc s; mu := mu s; log := e :: log s |}.

Definition called (m : Method) : M unit := emit (EvCall m).

(** [p.mu.Lock()]: a second Lock on the same goroutine never returns. *)
Definition mu_Lock : M unit :=
  fun s => if mu s then Aborted Deadlock s
           else Value tt {| proc := proc s; mu := true; log := EvLock :: log s |}.

(** [p.mu.Unlock()]: unlocking a free mutex is a fatal error. *)
Definition mu_Unlock : M unit :=
  fun s => if mu s
           then Value tt {| proc := proc s; mu := false; log := EvUnlock :: log s |}
           else Aborted (Panic "sync: unlock of unlocked mutex") s.

Definition read_cmd : M (option exec.Cmd) :=
  fun s => Value (cmd (proc s))
             {| proc := proc s; mu := mu s; log := EvRead FCmd (mu s) :: log s |}.

Definition write_cmd (c : option exec.Cmd) : M unit :=
  fun s => Value tt
             {| proc := set_cmd c (proc s); mu := mu s;
                log := EvWrite FCmd (mu s) :: log s |}.

Definition read_lastRestarted : M Time :=
  fun s => Value (lastRestarted (proc s))
             {| proc := proc s; mu := mu s;
                log := EvRead FLastRestarted (mu s) :: log s |}.

Definition write_lastRestarted (t : Time) : M unit :=
  fun s => Value tt
             {| proc := set_lastRestarted t (proc s); mu := mu s;
                log := EvWrite FLastRestarted (mu s) :: log s |}.

Definition read_args : M (list string) := fun s => Value (args (proc s)) s.

Definition nil_deref {A} : M A :=
  panic "invalid memory address or nil pointer dereference".

(** ** Methods of [*Process] *)

(** [pid]: the source reads [p.cmd] for the nil test, again for
    [p.cmd.Process == nil] and again for [p.cmd.Process.Pid]. *)
Definition pid : M Z :=
  called MPid ;;;
  c1 <- read_cmd ;;
  match c1 with
  | None => ret 0
  | Some _ =>
      c2 <- read_cmd ;;
      match c2 with
      | None => nil_deref
      | Some c2 =>
          match exec.Process c2 with
          | None => ret 0
          | Some _ =>
              c3 <- read_cmd ;;
              match c3 with
              | None => nil_deref
              | Some c3 =>
                  match exec.Process c3 with
                  | None => nil_deref
                  | Some pr => ret (Zpos (os.Pid pr))
                  end
              end
          end
      end
  end.

Definition setLastRestarted (t : Time) : M unit :=
  called MSetLastRestarted ;;;
  mu_Lock ;;;
  write_lastRestarted (time.UTC t) ;;;
  mu_Unlock.

(** The deferred Unlock runs after the return value is computed. *)
Definition lastRestartedTime : M Time :=
  called MLastRestartedTime ;;;
  mu_Lock ;;;
  t <- read_lastRestarted ;;
  mu_Unlock ;;;
  ret (time.UTC t).

(** [p.cmd.Start()] on the command just stored in [p.cmd]: on success the
    command gets its [Process]. *)
Definition cmd_Start (launch : LaunchResult) : M (option error) :=
  c <- read_cmd ;;
  match c with
  | None => nil_deref
  | Some c =>
      match launch with
      | LaunchFailed e => ret (Some e)
      | Launched n =>
          emit (EvSpawn n) ;;;
          write_cmd (Some {| exec.Path := exec.Path c; exec.Args := exec.Args c;
                             exec.Process := Some {| os.Pid := n |} |}) ;;;
          ret None
      end
  end.

(** [p.cmd.Stdout = os.Stdout] and [p.cmd.Stderr = os.Stderr]: each reads
    [p.cmd] to reach the command. *)
Definition cmd_attach_stream : M unit :=
  c <- read_cmd ;;
  match c with
  | None => nil_deref
  | Some _ => ret tt
  end.

(** [start]: [now] is what [time.Now()] reads after a successful launch,
    [launch] what the operating system answers to [cmd.Start]. *)
Definition start (now : Time) (launch : LaunchResult) : M (option error) :=
  called MStart ;;;
  c <- read_cmd ;;
  match c with
  | Some _ => ret (Some errProcessAlreadyStarted)
  | None =>
      a <- read_args ;;
      match a with
      | [] => panic "index out of range [0] with length 0"
      | a0 :: rest =>
          write_cmd (Some (exec.CommandContext a0 rest)) ;;;
          cmd_attach_stream ;;;
          cmd_attach_stream ;;;
          err <- cmd_Start launch ;;
          match err with
          | Some e => ret (errs.Wrap errProcess (Some e))
          | None => setLastRestarted now ;;; ret None
          end
      end
  end.

(** [p.cmd.Wait()]: a command that never started answers at once;
    otherwise [status] is how the process ended. *)
Definition cmd_Wait (status : option error) : M (option error) :=
  c <- read_cmd ;;
  match c with
  | None => nil_deref
  | Some c =>
      match exec.Process c with
      | None => ret (Some (ErrText "exec: not started"))
      | Some pr => emit (EvExited (os.Pid pr)) ;;; ret status
      end
  end.

(** [wait]: the deferred function clears [p.cmd] on the way out. *)
Definition wait (status : option error) : M (option error) :=
  called MWait ;;;
  c <- read_cmd ;;
  match c with
  | None => ret None
  | Some _ =>
      r <- cmd_Wait status ;;
      write_cmd None ;;;
      ret (errs.Wrap errProcess r)
  end.

(** [p.cmd.Process.Signal(sig)]: [answer] is what the operating system
    returns for the signal. *)
Definition Process_Signal (sig : Signal) (answer : option error)
  : M (option error) :=
  c <- read_cmd ;;
  match c with
  | None => nil_deref
  | Some c =>
      match exec.Process c with
      | None => nil_deref
      | Some pr => emit (EvSignal (os.Pid pr) sig) ;;; ret answer
      end
  end.

Definition exit (answer : option error) : M (option error) :=
  called MExit ;;;
  c <- read_cmd ;;
  match c with
  | None => ret None
  | Some _ =>
      r <- Process_Signal Interrupt answer ;;
      ret (errs.Wrap errProcess r)
  end.

Definition kill (answer : option error) : M (option error) :=
  called MKill ;;;
  c <- read_cmd ;;
  match c with
  | None => ret None
  | Some _ =>
      r <- Process_Signal Kill answer ;;
      ret (errs.Wrap errProcess r)
  end.

(** ** Reading the state and the log *)

(** The process attached to the handle, if any. *)
Definition attached (p : Process) : option os.Process :=
  match cmd p with
  | None => None
  | Some c => exec.Process c
  end.

(** What [pid] returns on a handle. *)
Definition pid_of (p : Process) : Z :=
  match attached p with
  | None => 0
  | Some pr => Zpos (os.Pid pr)
  end.

(** [s] with [evs] (newest first) put on its log. *)
Definition logged (evs : list Event) (s : Shared) : Shared :=
  {| proc := proc s; mu := mu s; log := evs ++ log s |}.

(** The signals on a log. *)
Fixpoint sent (l : list Event) : list (positive * Signal) :=
  match l with
  | [] => []
  | EvSignal n sig :: l' => (n, sig) :: sent l'
  | _ :: l' => sent l'
  end.

(** The methods called on a log. *)
Fixpoint calls (l : list Event) : list Method :=
  match l with
  | [] => []
  | EvCall m :: l' => m :: calls l'
  | _ :: l' => calls l'
  end.


(** The accesses to field [f] made without holding [mu]. *)
Definition unguarded (f : Field) (e : Event) : bool :=
  match e, f with
  | EvRead FCmd false, FCmd => true
  | EvWrite FCmd false, FCmd => true
  | EvRead FLastRestarted false, FLastRestarted => true
  | EvWrite FLastRestarted false, FLastRestarted => true
  | _, _ => false
  end.

Definition state_of {A} (o : outcome A) : Shared :=
  match o with
  | Value _ s => s
  | Aborted _ s => s
  end.

Definition returned {A} (o : outcome A) : option A :=
  match o with
  | Value a _ => Some a
  | Aborted _ _ => None
  end.

(** ** Runs of the handle

    The operations one goroutine or the other performs on the handle, each
    with what the environment answers. *)

Inductive Op :=
| OpStart (now : Time) (launch : LaunchResult)
| OpWait (status : option error)
| OpExit (answer : option error)
| OpKill (answer : option error)
| OpPid
| OpLastRestartedTime.

Definition run_op (o : Op) : M unit :=
  match o with
  | OpStart now launch => start now launch ;;; ret tt
  | OpWait status => wait status ;;; ret tt
  | OpExit answer => exit answer ;;; ret tt
  | OpKill answer => kill answer ;;; ret tt
  | OpPid => pid ;;; ret tt
  | OpLastRestartedTime => lastRestartedTime ;;; ret tt
  end.

(** A run stops at the first operation that does not return. *)
Fixpoint run_ops (ops : list Op) : M unit :=
  match ops with
  | [] => ret tt
  | o :: rest => run_op o ;;; run_ops rest
  end.


(** A fresh handle, nothing logged, mutex free. *)
Definition fresh (p : Process) : Shared :=
  {| proc := p; mu := false; log := [] |}.


(** ** Byte strings, results *)

Definition bytes := list ascii.

Definition b (s : string) : bytes := list_ascii_of_string s.

Definition LF : ascii := "010"%char.
Definition CR : ascii := "013"%char.

Inductive result (A : Type) : Type :=
| Ok (a : A)
| Err (e : error).
Arguments Ok {A} a.
Arguments Err {A} e.

Module strings.
(** [strings.HasPrefix s prefix]. *)
Fixpoint HasPrefix (s prefix : bytes) {struct prefix} : bool :=
  match prefix with
  | [] => true
  | c :: prefix' =>
      match s with
      | [] => false
      | d :: s' => Ascii.eqb c d && HasPrefix s' prefix'
      end
  end.
End strings.

(** ** Semantic versions (storj.io/common/version) *)

(** Modelled from the spec: the type [version.SemVer] is declared in
    storj.io/common and not in the sources; the spec gives a triple
    (major, minor, patch) with an optional pre-release qualifier and a
    distinguished zero value. *)
Record SemVer := {
  Major : Z;
  Minor : Z;
  Patch : Z;
  Pre : option bytes
}.

Module version.
Definition zero : SemVer :=
  {| Major := 0; Minor := 0; Patch := 0; Pre := None |}.

(** Modelled from the spec: [IsZero] holds of the unknown/zero value only. *)
Definition IsZero (v : SemVer) : bool :=
  (Major v =? 0) && (Minor v =? 0) && (Patch v =? 0)
  && match Pre v with None => true | Some _ => false end.

Fixpoint bytes_compare (x y : bytes) : comparison :=
  match x, y with
  | [], [] => Eq
  | [], _ :: _ => Lt
  | _ :: _, [] => Gt
  | c :: x', d :: y' =>
      match Ascii.compare c d with
      | Eq => bytes_compare x' y'
      | o => o
      end
  end.

(** Modelled from the spec: numeric fields compared numerically; at an
    equal triple a pre-release ranks below its absence.  The spec leaves the
    order of two qualifiers open; they are compared as byte strings. *)
Definition Compare (x y : SemVer) : comparison :=
  match Major x ?= Major y with
  | Eq =>
      match Minor x ?= Minor y with
      | Eq =>
          match Patch x ?= Patch y with
          | Eq =>
              match Pre x, Pre y with
              | None, None => Eq
              | None, Some _ => Gt
              | Some _, None => Lt
              | Some p, Some q => bytes_compare p q
              end
          | o => o
          end
      | o => o
      end
  | o => o
  end.

Definition Less (x y : SemVer) : bool :=
  match Compare x y with Lt => true | _ => false end.

Definition is_digit (c : ascii) : bool :=
  let n := Z.of_nat (nat_of_ascii c) in (48 <=? n) && (n <=? 57).

Fixpoint parse_uint_from (acc : Z) (l : bytes) : option Z :=
  match l with
  | [] => Some acc
  | c :: r =>
      if is_digit c
      then parse_uint_from (10 * acc + (Z.of_nat (nat_of_ascii c) - 48)) r
      else None
  end.

Definition parse_uint (l : bytes) : option Z :=
  match l with
  | [] => None
  | _ :: _ => parse_uint_from 0 l
  end.

(** [break sep l]: what precedes the first [sep], and what follows it when
    there is one. *)
Fixpoint break (sep : ascii) (l : bytes) : bytes * option bytes :=
  match l with
  | [] => ([], None)
  | c :: r =>
      if Ascii.eqb c sep then ([], Some r)
      else let (x, y) := break sep r in (c :: x, y)
  end.

Definition errVersion : string := "version".

(** Modelled from the spec: [version.NewSemVer] is not in the sources; it
    reads [MAJOR.MINOR.PATCH], decimal, with an optional leading [v] and an
    optional [-qualifier]. *)
Definition NewSemVer (s : bytes) : result SemVer :=
  let bad := Err (ErrClass errVersion (ErrText "invalid semantic version")) in
  let s := match s with
           | c :: r => if Ascii.eqb c "v"%char then r else s
           | [] => s
           end in
  let (core, pre) := break "-"%char s in
  match pre with
  | Some [] => bad
  | _ =>
      match break "."%char core with
      | (ma, Some r1) =>
          match break "."%char r1 with
          | (mi, Some pa) =>
              match parse_uint ma, parse_uint mi, parse_uint pa with
              | Some x, Some y, Some z =>
                  Ok {| Major := x; Minor := y; Patch := z; Pre := pre |}
              | _, _, _ => bad
              end
          | (_, None) => bad
          end
      | (_, None) => bad
      end
  end.
End version.

(** ** bufio.Scanner with the default split function (ScanLines)

    The tokens [Scan] delivers, in order.  A line is cut at LF and loses one
    trailing CR; a last line without LF is delivered when it is not empty.  A
    line whose first [MaxScanTokenSize] bytes hold no LF does not fit the
    buffer: [Scan] returns false there and the loop of the caller ends. *)

Module bufio.
Definition MaxScanTokenSize : N := 65536.

Fixpoint dropCR (line : bytes) : bytes :=
  match line with
  | [] => []
  | [c] => if Ascii.eqb c CR then [] else [c]
  | c :: rest => c :: dropCR rest
  end.

(** [cur] is the line read so far, last byte first; [n] its length. *)
Fixpoint scan_from (data : bytes) (cur : bytes) (n : N) : list bytes :=
  match data with
  | [] => if N.eqb n 0 then [] else [dropCR (rev cur)]
  | c :: rest =>
      if Ascii.eqb c LF then dropCR (rev cur) :: scan_from rest [] 0
      else if N.eqb (N.succ n) MaxScanTokenSize then []
      else scan_from rest (c :: cur) (N.succ n)
  end.

Definition Scanner_tokens (data : bytes) : list bytes := scan_from data [] 0%N.
End bufio.

(** ** parseVersion and binaryVersion *)

Definition versionPrefix : bytes := b "Version: ".

Definition errNoVersion : error := ErrText "unable to determine binary version".

(** The loop [for scanner.Scan() { ... }] over the tokens. *)
Fixpoint parseVersion_scan (lines : list bytes) : result SemVer :=
  match lines with
  | [] => Err errNoVersion
  | line :: rest =>
      if strings.HasPrefix line versionPrefix
      then version.NewSemVer (skipn (List.length versionPrefix) line)
      else parseVersion_scan rest
  end.

Definition parseVersion (out : bytes) : result SemVer :=
  parseVersion_scan (bufio.Scanner_tokens out).

(** What running a binary with the argument [version] gives: its combined
    output, or the error of [CombinedOutput]. *)
Inductive ExecResult :=
| Output (out : bytes)
| ExecFailed (e : error).

Definition binaryVersion (run : ExecResult) : result SemVer :=
  match run with
  | ExecFailed e => Err e
  | Output out => parseVersion out
  end.

(** The method [Version] of the handle: [binaryVersion] at its path; [run]
    is what running the binary there gives. *)
Definition Version (run : ExecResult) : result SemVer := binaryVersion run.

(** The lines of a byte string as the spec speaks of them: the pieces
    between line feeds.  This second definition does not come from the
    scanner; the tokens of the scanner are compared with it below. *)
Fixpoint lines (data : bytes) : list bytes :=
  match data with
  | [] => [[]]
  | c :: rest =>
      if Ascii.eqb c LF then [] :: lines rest
      else match lines rest with
           | l :: ls => (c :: l) :: ls
           | [] => [[c]]
           end
  end.





(** ** The manager *)

Record Config := {
  CheckInterval : Duration;
  ProcessExitTimeout : Duration;
  CheckMaxSleep : Duration;
  DisableProcessRestartOnExit : bool;
  DisableAutoupdate : bool
}.

Module sync2.
(** [sync2.Sleep ctx d]: true when the whole duration went by, false when
    the context was cancelled first; [completed] says which. *)
Definition Sleep (d : Duration) (completed : bool) : M bool :=
  emit (EvSleep d) ;;; ret completed.
End sync2.

(** *** The supervision goroutine seen from the update goroutine

    Between two calls of the update goroutine the supervision goroutine may
    return from [wait] and call [start] any number of times.  Goroutines
    interleave at the grain of whole method calls. *)

Inductive SupOp :=
| SupStart (now : Time) (launch : LaunchResult)
| SupWait (status : option error).

Definition sup_op (o : SupOp) : M unit :=
  match o with
  | SupStart now launch => start now launch ;;; ret tt
  | SupWait status => wait status ;;; ret tt
  end.

Fixpoint yield (ops : list SupOp) : M unit :=
  match ops with
  | [] => ret tt
  | o :: rest => sup_op o ;;; yield rest
  end.

(** The places of [reapProcess] where the other goroutine gets to run. *)
Inductive Point :=
| AfterSnapshotTime
| AfterSnapshotPid
| DuringSleep
| BetweenPidReads
| BeforeTimeRead
| BeforeLogPid
| BeforeKill.

Record ReapEnv := {
  exit_answer : option error;
  kill_answer : option error;
  slept : bool;
  meanwhile : Point -> list SupOp
}.

(** [reapProcess]: the test [pid() == 0 || pid() != oldPID] calls [pid] a
    second time only when the first call did not return 0; the log line
    before [kill] calls it once more. *)
Definition reapProcess (config : Config) (e : ReapEnv) : M (option error) :=
  lastRestarted <- lastRestartedTime ;;
  yield (meanwhile e AfterSnapshotTime) ;;;
  oldPID <- pid ;;
  yield (meanwhile e AfterSnapshotPid) ;;;
  err <- exit (exit_answer e) ;;
  match err with
  | Some er => ret (errs.Wrap errSupervisor (Some er))
  | None =>
      yield (meanwhile e DuringSleep) ;;;
      ok <- sync2.Sleep (ProcessExitTimeout config) (slept e) ;;
      if negb ok then ret (Some contextCanceled)
      else
        p1 <- pid ;;
        if p1 =? 0 then ret None
        else
          yield (meanwhile e BetweenPidReads) ;;;
          p2 <- pid ;;
          if negb (p2 =? oldPID) then ret None
          else
            yield (meanwhile e BeforeTimeRead) ;;;
            t <- lastRestartedTime ;;
            if negb (time.Equal t lastRestarted) then ret None
            else
              yield (meanwhile e BeforeLogPid) ;;;
              pid ;;;
              yield (meanwhile e BeforeKill) ;;;
              kill (kill_answer e)
  end.

Definition runProcess (now : Time) (launch : LaunchResult)
    (status : option error) : M (option error) :=
  err <- start now launch ;;
  match err with
  | Some e => ret (Some e)
  | None => wait status
  end.

(** *** math/rand

    [src] is the stream of 64-bit words of the generator; [Int63] keeps the
    low 63 bits of the next one. *)

Module rand.
Definition rngMask : Z := 2 ^ 63 - 1.

Definition Int63 (word : Z) : Z := Z.land word rngMask.

Inductive Drawn :=
| Sample (v : Z)
| InvalidArgument
| Exhausted.

(** The loop [for v > max { v = r.Int63() }] of [Int63n]. *)
Fixpoint reject (max n : Z) (src : list Z) : Drawn :=
  match src with
  | [] => Exhausted
  | word :: rest =>
      let v := Int63 word in
      if v >? max then reject max n rest else Sample (v mod n)
  end.

Definition Int63n (src : list Z) (n : Z) : Drawn :=
  if n <=? 0 then InvalidArgument
  else if Z.land n (n - 1) =? 0 then
    match src with
    | [] => Exhausted
    | word :: _ => Sample (Z.land (Int63 word) (n - 1))
    end
  else
    let max := 2 ^ 63 - 1 - (2 ^ 63) mod n in
    reject max n src.
End rand.

Definition rand_Int63n (src : list Z) (n : Z) : M Z :=
  match rand.Int63n src n with
  | rand.Sample v => ret v
  | rand.InvalidArgument => panic "invalid argument to Int63n"
  | rand.Exhausted => fun s => Aborted Starved s
  end.

(** *** The update cycle: the function [Run] hands to [updaterLoop.Run] *)

Record UpdateResult := {
  newVersion : SemVer;
  updated : bool;
  update_err : option error
}.

Record CycleEnv := {
  rand_src : list Z;
  jitter_slept : bool;
  version_run : ExecResult;
  update : UpdateResult;
  reap : ReapEnv
}.

(** [curVersion] is the variable the closure captures; the cycle returns its
    error and the new value of the variable. *)
Definition Run_cycle (config : Config) (e : CycleEnv) (curVersion : SemVer)
  : M (option error * SemVer) :=
  jitter <- rand_Int63n (rand_src e) (CheckMaxSleep config) ;;
  ok <- sync2.Sleep jitter (jitter_slept e) ;;
  if negb ok then ret (errs.Wrap errSupervisor (Some contextCanceled), curVersion)
  else
    let queried :=
      if version.IsZero curVersion then Version (version_run e)
      else Ok curVersion in
    match queried with
    | Err _ => ret (None, version.zero)
    | Ok curVersion =>
        match update_err (update e) with
        | Some _ => ret (None, curVersion)
        | None =>
            if updated (update e) then
              r <- reapProcess config (reap e) ;;
              ret (errs.Wrap errSupervisor r, newVersion (update e))
            else ret (None, curVersion)
        end
    end.

(** *** sync2.Cycle.Run and errgroup *)

Inductive TaskResult :=
| Returned (err : option error)
| Running.

(** What the loop of [Cycle.Run] finds when it wakes: a tick (with what the
    environment answers during the call), a stop request, or the context
    done. *)
Inductive Wake (Env : Type) :=
| Tick (e : Env)
| Stopping
| CtxDone.
Arguments Tick {Env} e.
Arguments Stopping {Env}.
Arguments CtxDone {Env}.

Section Cycle.
Context {Env St : Type}.
Variable fn : Env -> St -> M (option error * St).

Fixpoint Cycle_loop (st : St) (wakes : list (Wake Env)) : M TaskResult :=
  match wakes with
  | [] => ret Running
  | Stopping :: _ => ret (Returned None)
  | CtxDone :: _ => ret (Returned (Some contextCanceled))
  | Tick e :: rest =>
      r <- fn e st ;;
      match fst r with
      | Some err => ret (Returned (Some err))
      | None => Cycle_loop (snd r) rest
      end
  end.

(** [Cycle.Run]: the function runs once at once, then at every tick, until
    it returns an error. *)
Definition Cycle_Run (interval : Duration) (st : St) (first : Env)
    (wakes : list (Wake Env)) : M TaskResult :=
  if interval <=? 0 then panic "interval must be positive"
  else Cycle_loop st (Tick first :: wakes).
End Cycle.

Module errgroup.


End errgroup.

(** The second goroutine of [Run]. *)
Definition Run_updater (config : Config) (first : CycleEnv)
    (wakes : list (Wake CycleEnv)) : M TaskResult :=
  Cycle_Run (Run_cycle config) (CheckInterval config) version.zero first wakes.

(** The first goroutine of [Run]: one record for each turn of the loop. *)
Record Turn := {
  ctx_done : bool;
  turn_now : Time;
  turn_launch : LaunchResult;
  turn_status : option error
}.

Fixpoint Run_process (config : Config) (turns : list Turn) : M TaskResult :=
  match turns with
  | [] => ret Running
  | t :: rest =>
      if ctx_done t then ret (Returned (Some contextCanceled))
      else
        err <- runProcess (turn_now t) (turn_launch t) (turn_status t) ;;
        if DisableProcessRestartOnExit config then ret (Returned err)
        else Run_process config rest
  end.

(** ** Files on disk *)

Definition FS := string -> option bytes.

Definition fs_write (path : string) (content : bytes) (fs : FS) : FS :=
  fun q => if String.eqb q path then Some content else fs q.

Definition fs_remove (path : string) (fs : FS) : FS :=
  fun q => if String.eqb q path then None else fs q.

(** [os.Stat path] returns no error. *)
Definition fs_exists (fs : FS) (path : string) : bool :=
  match fs path with Some _ => true | None => false end.

(** Running the file at [path] with the argument [version]; [run] is how
    a binary with the given content behaves. *)
Definition run_file (run : bytes -> ExecResult) (fs : FS) (path : string)
  : ExecResult :=
  match fs path with
  | None => ExecFailed (ErrText "no such file or directory")
  | Some bin => run bin
  end.

(** ** The updater *)

(** What the version source answers: the target version and the payload. *)
Record Source := {
  target : result SemVer;
  payload : result bytes
}.

Record Paths := {
  installed : string;
  backup : string;
  temp : string
}.

Inductive UpdaterStep :=
| UQueried
| UFetched (v : SemVer)
| UVerified
| UBackedUp
| UReplaced.

Record Applied := {
  applied : UpdateResult;
  files : FS;
  steps : list UpdaterStep
}.

(** Modelled from the spec: the updater (Updater.Update, the spec's
    checkAndApply) is not in the sources.  Steps 1 to 6 of section 4.3: query
    the target; fetch when the current version is unknown or strictly less;
    write to a temporary location and verify the reported version against the
    target; copy the installed binary to the backup; replace the installed
    binary; report.  On a failure the version given is returned with
    [updated = false]. *)
Definition checkAndApply (run : bytes -> ExecResult) (src : Source)
    (paths : Paths) (currentVersion : SemVer) (fs : FS) : Applied :=
  let failed e fs' st :=
    {| applied := {| newVersion := currentVersion; updated := false;
                     update_err := Some e |};
       files := fs'; steps := st |} in
  match target src with
  | Err e => failed e fs [UQueried]
  | Ok tgt =>
      if version.IsZero currentVersion || version.Less currentVersion tgt then
        match payload src with
        | Err e => failed e fs [UQueried]
        | Ok bin =>
            let fs1 := fs_write (temp paths) bin fs in
            match binaryVersion (run bin) with
            | Err e => failed e fs1 [UQueried; UFetched tgt]
            | Ok v =>
                match version.Compare v tgt with
                | Eq =>
                    let fs2 := match fs1 (installed paths) with
                               | Some old => fs_write (backup paths) old fs1
                               | None => fs1
                               end in
                    let fs3 := fs_write (installed paths) bin
                                 (fs_remove (temp paths) fs2) in
                    {| applied := {| newVersion := tgt; updated := true;
                                     update_err := None |};
                       files := fs3;
                       steps := [UQueried; UFetched tgt; UVerified]
                                ++ match fs1 (installed paths) with
                                   | Some _ => [UBackedUp]
                                   | None => []
                                   end
                                ++ [UReplaced] |}
                | _ => failed (ErrText "version mismatch") fs1
                         [UQueried; UFetched tgt]
                end
            end
        end
      else
        {| applied := {| newVersion := currentVersion; updated := false;
                         update_err := None |};
           files := fs; steps := [UQueried] |}
  end.

(** ** Start-up: execSupervisor *)

Record config := {
  Config_ : Config;
  CheckTimeout : Duration;
  BinaryLocation : string;
  BinaryStoreDir : string;
  VersionServerAddress : string;
  NodeID_ : NodeID;
  IdentityDir : string;
  DisableUpdateBeforeFirstRun : bool
}.

Definition set_DisableUpdateBeforeFirstRun (v : bool) (cfg : config) : config :=
  {| Config_ := Config_ cfg; CheckTimeout := CheckTimeout cfg;
     BinaryLocation := BinaryLocation cfg; BinaryStoreDir := BinaryStoreDir cfg;
     VersionServerAddress := VersionServerAddress cfg; NodeID_ := NodeID_ cfg;
     IdentityDir := IdentityDir cfg; DisableUpdateBeforeFirstRun := v |}.

(** What the environment answers during start-up. *)
Record BootEnv := {
  identity : result NodeID;
  copy_err : option error;
  source : Source;
  temp_path : string;
  run_err : option error;
  close_err : option error
}.

(** The calls of start-up that matter, oldest first. *)
Inductive BootStep :=
| BCopy (dest src : string)
| BVersion
| BUpdate (curVersion : SemVer)
| BRun.

Record Booted := {
  boot_err : option error;
  boot_fs : FS;
  boot_steps : list BootStep
}.

Section Boot.
(** [filepath.Join] and the behaviour of a binary run with [version]. *)
Variable Join : string -> string -> string.
Variable run : bytes -> ExecResult.

(** [copyBinary]: [dest] is opened with O_WRONLY|O_CREATE, so bytes of an
    older, longer file stay behind the copy; when the copy fails, [dest]
    exists with what it held before. *)
Definition copyBinary (io : option error) (dest src : string) (fs : FS)
  : option error * FS :=
  match fs src with
  | None => (errs.WrapPlain (Some (ErrText "no such file or directory")), fs)
  | Some content =>
      let old := match fs dest with Some o => o | None => [] end in
      match io with
      | Some e => (errs.WrapPlain (Some e), fs_write dest old fs)
      | None =>
          (None,
           fs_write dest (content ++ skipn (List.length content) old) fs)
      end
  end.

(** Modelled from the spec: [Updater.Update] on the handle, the updater
    working on the installed path of the handle and on the backup in its
    store directory. *)
Definition Update (src : Source) (tmp : string) (process : Process)
    (curVersion : SemVer) (fs : FS) : Applied :=
  checkAndApply run src
    {| installed := binPath process;
       backup := Join (storeDir process) "storagenode";
       temp := tmp |}
    curVersion fs.

(** The block "check that storagenode binary exists": the error it
    returns with, if any, the version to start from, the configuration as
    the block leaves it, the files, the calls. *)
Definition execSupervisor_check (e : BootEnv) (cfg : config) (fs : FS)
  : option error * (SemVer * config * FS * list BootStep) :=
  if fs_exists fs (BinaryLocation cfg) then (None, (version.zero, cfg, fs, []))
  else
    let backupBinary := Join (BinaryStoreDir cfg) "storagenode" in
    if fs_exists fs backupBinary then
      let copied := [BCopy (BinaryLocation cfg) backupBinary] in
      match copyBinary (copy_err e) (BinaryLocation cfg) backupBinary fs with
      | (Some er, fs1) => (Some er, (version.zero, cfg, fs1, copied))
      | (None, fs1) =>
          match Version (run_file run fs1 (BinaryLocation cfg)) with
          | Err er => (Some er, (version.zero, cfg, fs1, copied ++ [BVersion]))
          | Ok curVersion =>
              (None, (curVersion, cfg, fs1, copied ++ [BVersion]))
          end
      end
    else
      (None, (version.zero, set_DisableUpdateBeforeFirstRun false cfg, fs, [])).

Definition execSupervisor (e : BootEnv) (cfg : config) (args : list string)
    (fs : FS) : Booted :=
  let got_id := if N.eqb (NodeID_ cfg) 0 then identity e
                else Ok (NodeID_ cfg) in
  match got_id with
  | Err er => {| boot_err := Some er; boot_fs := fs; boot_steps := [] |}
  | Ok id =>
      let process :=
        NewProcess id (BinaryLocation cfg) (BinaryStoreDir cfg) args in
      match execSupervisor_check e cfg fs with
      | (Some er, (_, _, fs1, st1)) =>
          {| boot_err := Some er; boot_fs := fs1; boot_steps := st1 |}
      | (None, (curVersion, cfg1, fs1, st1)) =>
          let run_manager fs2 st2 :=
            {| boot_err := errs.Combine (run_err e) (close_err e);
               boot_fs := fs2; boot_steps := st2 ++ [BRun] |} in
          if negb (DisableUpdateBeforeFirstRun cfg1) then
            let u := Update (source e) (temp_path e) process curVersion fs1 in
            match update_err (applied u) with
            | Some er =>
                {| boot_err := Some er; boot_fs := files u;
                   boot_steps := st1 ++ [BUpdate curVersion] |}
            | None => run_manager (files u) (st1 ++ [BUpdate curVersion])
            end
          else run_manager fs1 st1
      end
  end.
End Boot.

(** ** Observing a run of the update goroutine *)

(** Whether [kill] was called on a log. *)
Definition killed (l : list Event) : bool :=
  existsb (fun m => match m with MKill => true | _ => false end) (calls l).

(** The sleeps on a log, newest first. *)
Fixpoint sleeps (l : list Event) : list Duration :=
  match l with
  | [] => []
  | EvSleep d :: l' => d :: sleeps l'
  | _ :: l' => sleeps l'
  end.

(** The shared state once the supervision goroutine has done [ops]. *)
Definition yielded (ops : list SupOp) (s : Shared) : Shared :=
  state_of (yield ops s).

(** The handle once the supervision goroutine has done [ops]. *)
Definition after (ops : list SupOp) (p : Process) : Process :=
  proc (yielded ops (fresh p)).

(** Between two method calls the mutex is free; the argument list of the
    handle is not empty (the command line demands at least one argument). *)
Definition ready (s : Shared) : Prop :=
  mu s = false /\ args (proc s) <> [].

(** [exit] returns [nil] on the handle: nothing attached, or the signal
    was delivered. *)
Definition exit_ok (answer : option error) (p : Process) : bool :=
  match returned (exit answer (fresh p)) with
  | Some None => true
  | _ => false
  end.

(** The log of a computation grows at its newest end only. *)
Definition grows {A} (m : M A) : Prop :=
  forall s, exists evs, log (state_of (m s)) = evs ++ log s.

(** The update goroutine is between two calls, the handle is [p], and [kill]
    has not been called. *)
Definition quiet (s : Shared) (p : Process) : Prop :=
  ready s /\ proc s = p /\ killed (log s) = false.

(** The versions [Update] was called with during start-up. *)
Fixpoint updates (st : list BootStep) : list SemVer :=
  match st with
  | [] => []
  | BUpdate v :: st' => v :: updates st'
  | _ :: st' => updates st'
  end.

(** The payloads fetched by the updater. *)
Fixpoint fetched (st : list UpdaterStep) : list SemVer :=
  match st with
  | [] => []
  | UFetched v :: st' => v :: fetched st'
  | _ :: st' => fetched st'
  end.

(** ** Further observations on logs and runs *)

(** The processes created on a log, newest first. *)
Fixpoint spawned (l : list Event) : list positive :=
  match l with
  | [] => []
  | EvSpawn n :: l' => n :: spawned l'
  | _ :: l' => spawned l'
  end.

(** Every access to the timestamp on the log was made with [mu] held. *)
Definition timestamp_guarded (l : list Event) : bool :=
  forallb (fun e => negb (unguarded FLastRestarted e)) l.

(** A command is attached but no process is: what a failed launch leaves. *)
Definition launch_failed (p : Process) : Prop :=
  exists c, cmd p = Some c /\ exec.Process c = None.

(** The turns of the supervision loop that find the context live and launch
    the worker. *)
Definition launches (t : Turn) : Prop :=
  ctx_done t = false /\ exists n, turn_launch t = Launched n.

(** [Manager.Close] (and [Supervisor.close] before it): the updater loop is
    closed, which touches nothing of the handle, then [exit]. *)
Definition Close (answer : option error) : M (option error) :=
  exit answer.

(** The signal [sig] for the process attached to [p], if there is one. *)
Definition signal_to (p : Process) (sig : Signal) : list (positive * Signal) :=
  match attached p with
  | Some pr => [(os.Pid pr, sig)]
  | None => []
  end.

(** The update goroutine is between two calls, the handle is [p], the
    signals sent so far are [sg] and the sleeps so far [sl]. *)
Definition tracked (s : Shared) (p : Process)
    (sg : list (positive * Signal)) (sl : list Duration) : Prop :=
  ready s /\ proc s = p /\ sent (log s) = sg /\ sleeps (log s) = sl.

(** [e] with another answer to the version query. *)
Definition set_version_run (r : ExecResult) (e : CycleEnv) : CycleEnv :=
  {| rand_src := rand_src e; jitter_slept := jitter_slept e;
     version_run := r; update := update e; reap := reap e |}.

(** A wake of the updater loop with another answer to the version query. *)
Definition requery (r : ExecResult) (w : Wake CycleEnv) : Wake CycleEnv :=
  match w with
  | Tick e => Tick (set_version_run r e)
  | Stopping => Stopping
  | CtxDone => CtxDone
  end.

(** An update applied at this wake does not report the zero version. *)
Definition reports_a_version (w : Wake CycleEnv) : Prop :=
  match w with
  | Tick e =>
      updated (update e) = true -> update_err (update e) = None ->
      version.IsZero (newVersion (update e)) = false
  | _ => True
  end.

(** ** The update cycle in the earlier revisions of the manager *)

(** What the environment answers during a cycle of an earlier revision. *)
Record OldCycleEnv := {
  old_version_run : ExecResult;
  old_update : UpdateResult;
  old_exit_answer : option error
}.

(** [Supervisor.Run], first revision: the version is queried at every cycle
    and an applied update is followed by [exit]. *)
Definition Supervisor_Run_cycle (e : OldCycleEnv) : M (option error) :=
  match Version (old_version_run e) with
  | Err _ => ret None
  | Ok currentVersion =>
      match update_err (old_update e) with
      | Some _ => ret None
      | None =>
          if updated (old_update e) then
            r <- exit (old_exit_answer e) ;;
            ret (errs.Wrap errSupervisor r)
          else ret None
      end
  end.

(** [Supervisor.Run], second revision: the version is kept between cycles
    and reset to the zero value after an applied update. *)
Definition Supervisor_Run_cycle_cached (e : OldCycleEnv) (curVersion : SemVer)
  : M (option error * SemVer) :=
  let queried :=
    if version.IsZero curVersion then Version (old_version_run e)
    else Ok curVersion in
  match queried with
  | Err _ => ret (None, version.zero)
  | Ok curVersion =>
      match update_err (old_update e) with
      | Some _ => ret (None, curVersion)
      | None =>
          if updated (old_update e) then
            r <- exit (old_exit_answer e) ;;
            ret (errs.Wrap errSupervisor r, version.zero)
          else ret (None, curVersion)
      end
  end.

(** [Manager.Run] before the reap protocol: the version [Update] reports
    is kept, and an applied update is followed by [exit]. *)
Definition Manager_Run_cycle_exit (e : OldCycleEnv) (curVersion : SemVer)
  : M (option error * SemVer) :=
  let queried :=
    if version.IsZero curVersion then Version (old_version_run e)
    else Ok curVersion in
  match queried with
  | Err _ => ret (None, version.zero)
  | Ok curVersion =>
      match update_err (old_update e) with
      | Some _ => ret (None, curVersion)
      | None =>
          if updated (old_update e) then
            r <- exit (old_exit_answer e) ;;
            ret (errs.Wrap errSupervisor r, newVersion (old_update e))
          else ret (None, curVersion)
      end
  end.

(** * Proofs *)

(** ** The worker handle *)

Ltac unfold_methods :=
  cbv [start wait exit kill pid lastRestartedTime setLastRestarted
       cmd_Start cmd_Wait Process_Signal read_cmd write_cmd read_args
       read_lastRestarted write_lastRestarted mu_Lock mu_Unlock called emit
       nil_deref panic bind ret run_op sup_op logged state_of returned
       set_cmd set_lastRestarted attached pid_of proc mu log cmd args
       lastRestarted exec.Process os.Pid exec.CommandContext time.UTC fresh].

(** Case analysis on everything a method of the handle looks at. *)
Ltac handle_cases s :=
  let c := fresh "c" in
  let m := fresh "m" in
  let a := fresh "a" in
  destruct s as [[[[? ? [[?]|]]|] ? ? a ? ?] m ?];
  destruct a; destruct m.

Lemma state_of_bind {A B} (m : M A) (k : A -> M B) (s : Shared) :
  state_of (bind m k s) =
  match m s with
  | Value a s1 => state_of (k a s1)
  | Aborted _ s1 => s1
  end.
Proof. unfold bind. destruct (m s); reflexivity. Qed.

Lemma start_attached s c now launch :
  cmd (proc s) = Some c ->
  start now launch s
  = Value (Some errProcessAlreadyStarted)
      (logged [EvRead FCmd (mu s); EvCall MStart] s).
Proof.
  intros H. destruct s as [[c0 ? ? ? ? ?] m l]. simpl in H. subst c0.
  reflexivity.
Qed.


Lemma exit_unattached s answer :
  cmd (proc s) = None ->
  exit answer s = Value None (logged [EvRead FCmd (mu s); EvCall MExit] s).
Proof.
  intros H. destruct s as [[c0 ? ? ? ? ?] m l]. simpl in H. subst c0.
  reflexivity.
Qed.

Lemma kill_unattached s answer :
  cmd (proc s) = None ->
  kill answer s = Value None (logged [EvRead FCmd (mu s); EvCall MKill] s).
Proof.
  intros H. destruct s as [[c0 ? ? ? ? ?] m l]. simpl in H. subst c0.
  reflexivity.
Qed.

Lemma wait_clears s status :
  exists r s', wait status s = Value r s' /\ cmd (proc s') = None
               /\ lastRestarted (proc s') = lastRestarted (proc s)
               /\ mu s' = mu s.
Proof.
  handle_cases s; unfold_methods; simpl; eauto 8.
Qed.








(** ** Scanning for the version line *)


Lemma dropCR_prefix line : exists tail, line = bufio.dropCR line ++ tail.
Proof.
  induction line as [|c rest IH].
  - exists []. reflexivity.
  - destruct rest as [|d rest'].
    + simpl. destruct (Ascii.eqb c CR); [exists [c] | exists []]; reflexivity.
    + destruct IH as [tail IH]. exists tail.
      change (bufio.dropCR (c :: d :: rest'))
        with (c :: bufio.dropCR (d :: rest')).
      rewrite <- app_comm_cons. f_equal. exact IH.
Qed.

Lemma HasPrefix_app s t prefix :
  strings.HasPrefix s prefix = true -> strings.HasPrefix (s ++ t) prefix = true.
Proof.
  revert s. induction prefix as [|c prefix IH]; intros s H.
  - reflexivity.
  - destruct s as [|d s]; simpl in *; [discriminate|].
    apply andb_true_iff in H. destruct H as [H1 H2].
    rewrite H1. simpl. now apply IH.
Qed.

Lemma HasPrefix_dropCR line prefix :
  strings.HasPrefix (bufio.dropCR line) prefix = true ->
  strings.HasPrefix line prefix = true.
Proof.
  intros H. destruct (dropCR_prefix line) as [tail E].
  rewrite E. now apply HasPrefix_app.
Qed.





Lemma HasPrefix_keeps_dropCR prefix : forall line,
  ~ In CR prefix ->
  strings.HasPrefix line prefix = true ->
  strings.HasPrefix (bufio.dropCR line) prefix = true.
Proof.
  induction prefix as [|c prefix IH]; intros line Hn H; [reflexivity|].
  destruct line as [|d line]; [discriminate|].
  cbn [strings.HasPrefix] in H. apply andb_true_iff in H. destruct H as [Hc Hp].
  destruct line as [|d' line'].
  - destruct prefix; [|discriminate].
    cbn [bufio.dropCR]. apply Ascii.eqb_eq in Hc. subst d.
    destruct (Ascii.eqb_spec c CR) as [->|_].
    + exfalso. apply Hn. now left.
    + cbn. now rewrite Ascii.eqb_refl.
  - change (bufio.dropCR (d :: d' :: line')) with (d :: bufio.dropCR (d' :: line')).
    cbn [strings.HasPrefix]. rewrite Hc. cbn [andb].
    apply IH; [|exact Hp]. intros Hin. apply Hn. now right.
Qed.

Lemma HasPrefix_dropCR_eq line :
  strings.HasPrefix (bufio.dropCR line) versionPrefix
  = strings.HasPrefix line versionPrefix.
Proof.
  destruct (strings.HasPrefix line versionPrefix) eqn:E.
  - apply HasPrefix_keeps_dropCR; [|exact E].
    vm_compute. intuition discriminate.
  - destruct (strings.HasPrefix (bufio.dropCR line) versionPrefix) eqn:F;
      [|reflexivity].
    apply HasPrefix_dropCR in F. congruence.
Qed.







(** ** The update goroutine on the shared handle *)

Lemma calls_app l1 l2 : calls (l1 ++ l2) = calls l1 ++ calls l2.
Proof.
  induction l1 as [|e l1 IH]; [reflexivity|].
  destruct e; simpl; rewrite IH; reflexivity.
Qed.

Lemma killed_app l1 l2 : killed (l1 ++ l2) = killed l1 || killed l2.
Proof. unfold killed. rewrite calls_app. apply existsb_app. Qed.

Lemma sleeps_app l1 l2 : sleeps (l1 ++ l2) = sleeps l1 ++ sleeps l2.
Proof.
  induction l1 as [|e l1 IH]; [reflexivity|].
  destruct e; simpl; rewrite IH; reflexivity.
Qed.

(** *** The methods the update goroutine calls

    With the mutex free, each of them returns what it returns on the handle
    alone, leaves the handle and the mutex as they are, and puts its own
    events on the log. *)

Lemma lastRestartedTime_run s :
  mu s = false ->
  lastRestartedTime s
  = Value (lastRestarted (proc s))
      (logged [EvUnlock; EvRead FLastRestarted true; EvLock;
               EvCall MLastRestartedTime] s).
Proof.
  destruct s as [p m l]. simpl. intros ->. reflexivity.
Qed.

Lemma pid_run s :
  mu s = false ->
  pid s
  = Value (pid_of (proc s)) (logged (log (state_of (pid (fresh (proc s))))) s).
Proof.
  intros H. handle_cases s; try discriminate H; reflexivity.
Qed.

Lemma pid_not_killed p : killed (log (state_of (pid (fresh p)))) = false.
Proof.
  destruct p as [[[? ? [[?]|]]|] ? ? ? ? ?]; reflexivity.
Qed.

Lemma exit_run s answer :
  mu s = false ->
  exit answer s
  = match exit answer (fresh (proc s)) with
    | Value r s1 => Value r (logged (log s1) s)
    | Aborted w s1 => Aborted w (logged (log s1) s)
    end.
Proof.
  intros H. handle_cases s; try discriminate H; reflexivity.
Qed.

Lemma exit_not_killed p answer :
  killed (log (state_of (exit answer (fresh p)))) = false.
Proof.
  destruct p as [[[? ? [[?]|]]|] ? ? ? ? ?]; reflexivity.
Qed.

Lemma kill_killed s answer : killed (log (state_of (kill answer s))) = true.
Proof.
  handle_cases s; reflexivity.
Qed.

Lemma Sleep_run d completed s :
  sync2.Sleep d completed s = Value completed (logged [EvSleep d] s).
Proof. reflexivity. Qed.

(** *** The supervision goroutine in between *)

Lemma sup_op_ready o s :
  ready s ->
  exists s1,
    sup_op o s = Value tt s1
    /\ ready s1
    /\ killed (log s1) = killed (log s)
    /\ proc s1 = proc (state_of (sup_op o (fresh (proc s)))).
Proof.
  intros [Hm Ha]. exists (state_of (sup_op o s)).
  destruct s as [[c ? ? a ? ?] m l]. simpl in Hm, Ha. subst m.
  destruct a as [|a0 rest]; [contradiction|].
  destruct c as [[? ? [[?]|]]|]; destruct o as [now [n|e]|status];
    (split; [reflexivity|]).
  all: split; [split; [reflexivity | cbn; discriminate]|].
  all: split; reflexivity.
Qed.

Lemma yield_cons o rest s :
  yield (o :: rest) s
  = match sup_op o s with
    | Value _ s1 => yield rest s1
    | Aborted w s1 => Aborted w s1
    end.
Proof. reflexivity. Qed.

Lemma yield_ready ops : forall s,
  ready s ->
  yield ops s = Value tt (yielded ops s)
  /\ ready (yielded ops s)
  /\ killed (log (yielded ops s)) = killed (log s)
  /\ proc (yielded ops s) = after ops (proc s).
Proof.
  unfold after, yielded.
  induction ops as [|o rest IH]; intros s H.
  - simpl. repeat split; apply H.
  - destruct (sup_op_ready o s H) as (s1 & E1 & R1 & K1 & P1).
    assert (Hf : ready (fresh (proc s))) by (split; [reflexivity | apply H]).
    destruct (sup_op_ready o (fresh (proc s)) Hf) as (s2 & E2 & R2 & _ & _).
    rewrite E2 in P1. simpl in P1.
    destruct (IH s1 R1) as (Y1 & RY1 & KY1 & PY1).
    destruct (IH s2 R2) as (_ & _ & _ & PY2).
    rewrite !yield_cons, E1, E2. rewrite P1 in PY1.
    repeat split; try assumption; try apply RY1; congruence.
Qed.

Lemma bind_value {A B} (m : M A) (k : A -> M B) s a s1 :
  m s = Value a s1 -> bind m k s = k a s1.
Proof. unfold bind. intros ->. reflexivity. Qed.

Lemma bind_aborted {A B} (m : M A) (k : A -> M B) s w s1 :
  m s = Aborted w s1 -> bind m k s = Aborted w s1.
Proof. unfold bind. intros ->. reflexivity. Qed.

Lemma quiet_fresh p : args p <> [] -> quiet (fresh p) p.
Proof. intros H. repeat split. exact H. Qed.

Lemma quiet_logged evs s p :
  killed evs = false -> quiet s p -> quiet (logged evs s) p.
Proof.
  intros Hk (R & P & K). repeat split; try apply R; try exact P.
  simpl. rewrite killed_app, Hk, K. reflexivity.
Qed.

Lemma quiet_lastRestartedTime s p :
  quiet s p ->
  exists s1, lastRestartedTime s = Value (lastRestarted p) s1 /\ quiet s1 p.
Proof.
  intros Q. pose proof Q as ((Hm & _) & P & _).
  rewrite (lastRestartedTime_run s Hm), P.
  eexists. split; [reflexivity|]. now apply quiet_logged.
Qed.

Lemma quiet_pid s p :
  quiet s p -> exists s1, pid s = Value (pid_of p) s1 /\ quiet s1 p.
Proof.
  intros Q. pose proof Q as ((Hm & _) & P & _).
  rewrite (pid_run s Hm), P.
  eexists. split; [reflexivity|]. apply quiet_logged; [|exact Q].
  apply pid_not_killed.
Qed.

Lemma quiet_yield ops s p :
  quiet s p -> exists s1, yield ops s = Value tt s1 /\ quiet s1 (after ops p).
Proof.
  intros (R & P & K). destruct (yield_ready ops s R) as (Y & RY & KY & PY).
  exists (yielded ops s). split; [exact Y|].
  repeat split; try apply RY; congruence.
Qed.

Lemma quiet_Sleep d completed s p :
  quiet s p ->
  exists s1, sync2.Sleep d completed s = Value completed s1 /\ quiet s1 p.
Proof.
  intros Q. rewrite Sleep_run. eexists. split; [reflexivity|].
  now apply quiet_logged.
Qed.

(** [exit] from a quiet state: [nil] exactly when [exit_ok]; otherwise an
    error or a panic, and [kill] still not called. *)
Lemma quiet_exit answer s p :
  quiet s p ->
  if exit_ok answer p
  then exists s1, exit answer s = Value None s1 /\ quiet s1 p
  else (exists er s1, exit answer s = Value (Some er) s1
                      /\ killed (log s1) = false)
       \/ (exists w s1, exit answer s = Aborted w s1
                        /\ killed (log s1) = false).
Proof.
  intros Q. pose proof Q as ((Hm & _) & P & K).
  rewrite (exit_run s answer Hm), P. unfold exit_ok.
  pose proof (exit_not_killed p answer) as Hk.
  destruct (exit answer (fresh p)) as [[er|] s1|w s1]; simpl in *.
  - left. eexists. eexists. split; [reflexivity|].
    simpl. now rewrite killed_app, Hk, K.
  - eexists. split; [reflexivity|]. now apply quiet_logged.
  - right. eexists. eexists. split; [reflexivity|].
    simpl. now rewrite killed_app, Hk, K.
Qed.

Ltac run H := rewrite (bind_value _ _ _ _ _ H).

(** The decision of [reapProcess].  [p1] is the handle when the pid is
    snapshotted, [p2] when [exit] is called, [p3] and [p4] at the two
    re-reads of the pid after the sleep, [p5] at the re-read of the
    timestamp. *)
Lemma reapProcess_decision config e p :
  args p <> [] ->
  let p1 := after (meanwhile e AfterSnapshotTime) p in
  let p2 := after (meanwhile e AfterSnapshotPid) p1 in
  let p3 := after (meanwhile e DuringSleep) p2 in
  let p4 := after (meanwhile e BetweenPidReads) p3 in
  let p5 := after (meanwhile e BeforeTimeRead) p4 in
  let o := reapProcess config e (fresh p) in
  let go := (negb (pid_of p3 =? 0)) && (pid_of p4 =? pid_of p1)
            && (lastRestarted p5 =? lastRestarted p) in
  killed (log (state_of o)) = exit_ok (exit_answer e) p2 && slept e && go
  /\ (exit_ok (exit_answer e) p2 = true -> slept e = true -> go = false ->
      returned o = Some None).
Proof.
  intros Ha p1 p2 p3 p4 p5 o go. subst o. unfold reapProcess.
  pose proof (quiet_fresh p Ha) as Q0.
  destruct (quiet_lastRestartedTime _ _ Q0) as (s1 & E1 & Q1). run E1.
  destruct (quiet_yield (meanwhile e AfterSnapshotTime) _ _ Q1)
    as (s2 & E2 & Q2). run E2. fold p1 in Q2.
  destruct (quiet_pid _ _ Q2) as (s3 & E3 & Q3). run E3.
  destruct (quiet_yield (meanwhile e AfterSnapshotPid) _ _ Q3)
    as (s4 & E4 & Q4). run E4. fold p2 in Q4.
  pose proof (quiet_exit (exit_answer e) _ _ Q4) as X.
  destruct (exit_ok (exit_answer e) p2).
  2: { destruct X as [(er & s5 & E5 & K5)|(w & s5 & E5 & K5)].
       - run E5. simpl. split; [exact K5 | discriminate].
       - rewrite (bind_aborted _ _ _ _ _ E5). simpl.
         split; [exact K5 | discriminate]. }
  destruct X as (s5 & E5 & Q5). run E5.
  destruct (quiet_yield (meanwhile e DuringSleep) _ _ Q5)
    as (s6 & E6 & Q6). run E6. fold p3 in Q6.
  destruct (quiet_Sleep (ProcessExitTimeout config) (slept e) _ _ Q6)
    as (s7 & E7 & Q7). run E7.
  destruct (slept e); cbn [negb].
  2: { simpl. split; [apply Q7 | discriminate]. }
  destruct (quiet_pid _ _ Q7) as (s8 & E8 & Q8). run E8.
  subst go. destruct (pid_of p3 =? 0).
  { simpl. split; [apply Q8 | reflexivity]. }
  destruct (quiet_yield (meanwhile e BetweenPidReads) _ _ Q8)
    as (s9 & E9 & Q9). run E9. fold p4 in Q9.
  destruct (quiet_pid _ _ Q9) as (s10 & E10 & Q10). run E10.
  destruct (pid_of p4 =? pid_of p1); cbn [negb].
  2: { simpl. split; [apply Q10 | reflexivity]. }
  destruct (quiet_yield (meanwhile e BeforeTimeRead) _ _ Q10)
    as (s11 & E11 & Q11). run E11. fold p5 in Q11.
  destruct (quiet_lastRestartedTime _ _ Q11) as (s12 & E12 & Q12). run E12.
  unfold time.Equal. destruct (lastRestarted p5 =? lastRestarted p); cbn [negb].
  2: { simpl. split; [apply Q12 | reflexivity]. }
  destruct (quiet_yield (meanwhile e BeforeLogPid) _ _ Q12)
    as (s13 & E13 & Q13). run E13.
  destruct (quiet_pid _ _ Q13) as (s14 & E14 & Q14). run E14.
  destruct (quiet_yield (meanwhile e BeforeKill) _ _ Q14)
    as (s15 & E15 & Q15). run E15.
  simpl. split; [apply kill_killed | discriminate].
Qed.

(** *** Logs only grow *)

Lemma grows_ret {A} (a : A) : grows (ret a).
Proof. intros s. now exists []. Qed.

Lemma grows_bind {A B} (m : M A) (k : A -> M B) :
  grows m -> (forall a, grows (k a)) -> grows (bind m k).
Proof.
  intros Hm Hk s. rewrite state_of_bind. destruct (Hm s) as [e1 H1].
  destruct (m s) as [a s1|w s1]; simpl in H1.
  - destruct (Hk a s1) as [e2 H2]. exists (e2 ++ e1).
    now rewrite H2, H1, app_assoc.
  - now exists e1.
Qed.

Lemma grows_abort {A} (w : Abort) : grows (fun s => @Aborted A w s).
Proof. intros s. now exists []. Qed.

Lemma grows_emit e : grows (emit e).
Proof. intros s. now exists [e]. Qed.

Lemma grows_Lock : grows mu_Lock.
Proof. intros [p [|] l]; [now exists [] | now exists [EvLock]]. Qed.

Lemma grows_Unlock : grows mu_Unlock.
Proof. intros [p [|] l]; [now exists [EvUnlock] | now exists []]. Qed.

Lemma grows_read_cmd : grows read_cmd.
Proof. intros s. now exists [EvRead FCmd (mu s)]. Qed.

Lemma grows_write_cmd c : grows (write_cmd c).
Proof. intros s. now exists [EvWrite FCmd (mu s)]. Qed.

Lemma grows_read_lastRestarted : grows read_lastRestarted.
Proof. intros s. now exists [EvRead FLastRestarted (mu s)]. Qed.

Lemma grows_write_lastRestarted t : grows (write_lastRestarted t).
Proof. intros s. now exists [EvWrite FLastRestarted (mu s)]. Qed.

Lemma grows_read_args : grows read_args.
Proof. intros s. now exists []. Qed.

Lemma grows_called m : grows (called m).
Proof. apply grows_emit. Qed.

Create HintDb grows.
#[export] Hint Resolve grows_ret grows_abort grows_emit grows_called grows_Lock
  grows_Unlock grows_read_cmd grows_write_cmd grows_read_lastRestarted
  grows_write_lastRestarted grows_read_args : grows.

(** Splits a computation along its binds and its case analyses. *)
Ltac grows_split :=
  repeat first
    [ solve [auto with grows]
    | apply grows_bind; [|intros ?]
    | match goal with
      | |- grows (match ?x with _ => _ end) => destruct x
      end ].

Lemma grows_pid : grows pid.
Proof. unfold pid, called, nil_deref, panic. grows_split. Qed.

Lemma grows_lastRestartedTime : grows lastRestartedTime.
Proof. unfold lastRestartedTime, called. grows_split. Qed.

Lemma grows_start now launch : grows (start now launch).
Proof.
  unfold start, cmd_Start, setLastRestarted, called, nil_deref, panic.
  grows_split.
Qed.

Lemma grows_wait status : grows (wait status).
Proof. unfold wait, cmd_Wait, called, nil_deref, panic. grows_split. Qed.

Lemma grows_exit answer : grows (exit answer).
Proof. unfold exit, Process_Signal, called, nil_deref, panic. grows_split. Qed.

Lemma grows_kill answer : grows (kill answer).
Proof. unfold kill, Process_Signal, called, nil_deref, panic. grows_split. Qed.

Lemma grows_Sleep d completed : grows (sync2.Sleep d completed).
Proof. unfold sync2.Sleep. grows_split. Qed.

#[export] Hint Resolve grows_pid grows_lastRestartedTime grows_start
  grows_wait grows_exit grows_kill grows_Sleep : grows.

Lemma grows_yield ops : grows (yield ops).
Proof.
  induction ops as [|o rest IH]; [apply grows_ret|].
  change (yield (o :: rest)) with (bind (sup_op o) (fun _ => yield rest)).
  apply grows_bind; [|intros _; exact IH].
  destruct o; unfold sup_op; grows_split.
Qed.

#[export] Hint Resolve grows_yield : grows.

Lemma grows_reapProcess config e : grows (reapProcess config e).
Proof. unfold reapProcess. grows_split. Qed.

#[export] Hint Resolve grows_reapProcess : grows.

(** *** The jitter *)

Lemma Int63_range word : 0 <= rand.Int63 word < 2 ^ 63.
Proof.
  unfold rand.Int63. change rand.rngMask with (Z.ones 63).
  rewrite Z.land_ones by lia. apply Z.mod_pos_bound. lia.
Qed.

Lemma land_le_r a c : 0 <= a -> 0 <= c -> Z.land a c <= c.
Proof.
  intros Ha Hc. rewrite <- (Z2N.id a), <- (Z2N.id c) at 1 by assumption.
  rewrite <- N2Z.inj_land. rewrite <- (Z2N.id c) at 2 by assumption.
  apply N2Z.inj_le. apply N.land_le_r.
Qed.

Lemma reject_bound max n src :
  0 < n ->
  match rand.reject max n src with
  | rand.Sample d => 0 <= d < n
  | rand.InvalidArgument => False
  | rand.Exhausted => Forall (fun word => max < rand.Int63 word) src
  end.
Proof.
  intros Hn. induction src as [|word rest IH]; simpl.
  - constructor.
  - destruct (Z.gtb_spec (rand.Int63 word) max) as [Hgt|Hle].
    + destruct (rand.reject max n rest); try exact IH.
      constructor; [lia | exact IH].
    + apply Z.mod_pos_bound. exact Hn.
Qed.

(** What [Int63n] gives: a sample in [0, n), the panic for [n <= 0], or, when
    the words supplied run out, all of them rejected. *)
Lemma Int63n_bound src n :
  match rand.Int63n src n with
  | rand.Sample d => 0 <= d < n
  | rand.InvalidArgument => n <= 0
  | rand.Exhausted =>
      0 < n
      /\ Forall (fun word => 2 ^ 63 - 1 - (2 ^ 63) mod n < rand.Int63 word) src
  end.
Proof.
  unfold rand.Int63n. destruct (Z.leb_spec n 0) as [Hn|Hn]; [exact Hn|].
  destruct (Z.land n (n - 1) =? 0).
  - destruct src as [|word rest].
    + split; [exact Hn | constructor].
    + pose proof (Int63_range word) as Hr.
      split.
      * apply Z.land_nonneg. left. lia.
      * assert (Z.land (rand.Int63 word) (n - 1) <= n - 1)
          by (apply land_le_r; lia).
        lia.
  - pose proof (reject_bound (2 ^ 63 - 1 - (2 ^ 63) mod n) n src Hn) as H.
    destruct (rand.reject _ n src); try exact H; try contradiction.
    split; [exact Hn | exact H].
Qed.

(** The oldest sleep of a cycle is its jitter, drawn below [CheckMaxSleep]. *)
Lemma Run_cycle_first_sleep config e curVersion p :
  match rev (sleeps (log (state_of (Run_cycle config e curVersion (fresh p))))) with
  | d :: _ => 0 <= d < CheckMaxSleep config
  | [] => True
  end.
Proof.
  unfold Run_cycle, rand_Int63n.
  pose proof (Int63n_bound (rand_src e) (CheckMaxSleep config)) as Hb.
  destruct (rand.Int63n (rand_src e) (CheckMaxSleep config)) as [d| |];
    try exact I.
  rewrite (bind_value _ _ (fresh p) d (fresh p) eq_refl).
  rewrite (bind_value _ _ _ _ _ (Sleep_run d (jitter_slept e) (fresh p))).
  match goal with
  | |- context [state_of (?k ?s)] =>
      assert (G : grows k)
  end.
  { destruct (jitter_slept e); cbn [negb]; [|auto with grows].
    unfold binaryVersion. grows_split. }
  destruct (G (logged [EvSleep d] (fresh p))) as [evs Hevs].
  rewrite Hevs. simpl log. rewrite sleeps_app, rev_app_distr. simpl. exact Hb.
Qed.

(** ** Claims about the worker handle *)

(** Termination on a handle whose [p.cmd] is nil: [exit] (the graceful
    interrupt) and [kill] each return [nil]; the handle (its attachment,
    hence its pid, and its last-start timestamp) and the mutex are as before,
    and no signal is sent. *)
Theorem termination_idempotent (s : Shared) (answer : option error) :
  cmd (proc s) = None ->
  (exists s1, exit answer s = Value None s1
              /\ proc s1 = proc s /\ mu s1 = mu s
              /\ pid_of (proc s1) = 0
              /\ sent (log s1) = sent (log s))
  /\ (exists s2, kill answer s = Value None s2
                 /\ proc s2 = proc s /\ mu s2 = mu s
                 /\ pid_of (proc s2) = 0
                 /\ sent (log s2) = sent (log s)).
Proof.
  intros H.
  assert (Hp : pid_of (proc s) = 0) by (unfold pid_of, attached; now rewrite H).
  split.
  - rewrite (exit_unattached s answer H). eexists. split; [reflexivity|].
    simpl. auto.
  - rewrite (kill_unattached s answer H). eexists. split; [reflexivity|].
    simpl. auto.
Qed.

Lemma termination_idempotent_witness :
  let s := fresh (NewProcess 7%N "/app/bin/storagenode" "/app/config/bin"
                    ["storagenode"; "run"]) in
  cmd (proc s) = None
  /\ (exists s1, exit (Some (ErrText "os: process already finished")) s
                 = Value None s1
                 /\ proc s1 = proc s /\ mu s1 = mu s
                 /\ pid_of (proc s1) = 0
                 /\ sent (log s1) = sent (log s)).
Proof.
  split; [reflexivity|].
  apply (termination_idempotent
           (fresh (NewProcess 7%N "/app/bin/storagenode" "/app/config/bin"
                     ["storagenode"; "run"]))
           (Some (ErrText "os: process already finished"))).
  reflexivity.
Defined.

(** C10. A handle built by [NewProcess] with an empty argument list: [start]
    panics on [p.args[0]] (index out of range) and returns no error at all,
    neither a "process" error nor "already started"; the handle stays
    unattached.  With at least one argument and the mutex free, [start]
    returns. *)
Theorem start_needs_an_argument :
  (forall nodeID binPath storeDir now launch m l,
      let s := {| proc := NewProcess nodeID binPath storeDir []; mu := m;
                  log := l |} in
      exists s1,
        start now launch s
        = Aborted (Panic "index out of range [0] with length 0") s1
        /\ returned (start now launch s) = None
        /\ proc s1 = proc s)
  /\ (forall nodeID binPath storeDir a0 rest now launch l,
         let s := {| proc := NewProcess nodeID binPath storeDir (a0 :: rest);
                     mu := false; log := l |} in
         exists r s1, start now launch s = Value r s1).
Proof.
  split.
  - intros. subst s. eexists. repeat split.
  - intros. subst s. destruct launch as [n|e]; eexists; eexists; reflexivity.
Qed.



(** C9. [pid] reads [p.cmd] without taking [p.mu]: its accesses are three
    reads of the field made with the mutex free and no Lock at all, whereas
    [lastRestartedTime] reads the timestamp between Lock and Unlock.  The
    process handle is therefore not read under the guard. *)
Theorem pid_reads_cmd_unguarded (p : Process) (n : positive) (c : exec.Cmd) :
  cmd p = Some c -> exec.Process c = Some {| os.Pid := n |} ->
  pid (fresh p)
  = Value (Zpos n)
      (logged [EvRead FCmd false; EvRead FCmd false; EvRead FCmd false;
               EvCall MPid] (fresh p))
  /\ existsb (unguarded FCmd) (log (state_of (pid (fresh p)))) = true
  /\ lastRestartedTime (fresh p)
     = Value (lastRestarted p)
         (logged [EvUnlock; EvRead FLastRestarted true; EvLock;
                  EvCall MLastRestartedTime] (fresh p))
  /\ existsb (unguarded FLastRestarted)
       (log (state_of (lastRestartedTime (fresh p)))) = false.
Proof.
  intros Hc Hp.
  destruct p as [c0 ? ? ? ? ?]. simpl in Hc. subst c0.
  destruct c as [path ar pr]. simpl in Hp. subst pr.
  repeat split.
Qed.

Lemma pid_reads_cmd_unguarded_witness :
  let p := proc (state_of (start 100 (Launched 42)
             (fresh (NewProcess 7%N "/app/bin/storagenode" "/app/config/bin"
                       ["storagenode"; "run"])))) in
  existsb (unguarded FCmd) (log (state_of (pid (fresh p)))) = true.
Proof.
  intros p.
  apply (pid_reads_cmd_unguarded p 42
           (exec.Build_Cmd "storagenode" ["storagenode"; "run"]
              (Some (os.Build_Process 42))));
    reflexivity.
Defined.

(** ** Claims about version parsing *)



(** ** Claims about the manager *)

Lemma Wrap_Some class e : exists w, errs.Wrap class (Some e) = Some w.
Proof.
  destruct e as [msg|c inner]; simpl; [eauto|].
  destruct (String.eqb c class); eauto.
Qed.

(** C1. The safe-reap decision.  [p] is the handle when the timestamp is
    snapshotted and [p1] when the pid is; [p2] is the handle when [exit] is
    called; [p3] and [p4] are the handle at the two reads of the pid after the
    sleep, [p5] at the read of the timestamp; what the supervision goroutine
    does in between is arbitrary.  [kill] is called if and only if [exit]
    returned [nil], the sleep of [ProcessExitTimeout] ran to its end, and then
    the pid read is not 0 and is the snapshotted pid and the timestamp read
    equals the snapshotted timestamp.  In every other case after the sleep
    (pid 0, another pid, another timestamp) the reap returns [nil] and [kill]
    is not called. *)
Theorem reap_kills_only_the_snapshotted_process
    (config : Config) (e : ReapEnv) (p : Process) :
  args p <> [] ->
  let p1 := after (meanwhile e AfterSnapshotTime) p in
  let p2 := after (meanwhile e AfterSnapshotPid) p1 in
  let p3 := after (meanwhile e DuringSleep) p2 in
  let p4 := after (meanwhile e BetweenPidReads) p3 in
  let p5 := after (meanwhile e BeforeTimeRead) p4 in
  let o := reapProcess config e (fresh p) in
  let same := pid_of p3 <> 0 /\ pid_of p4 = pid_of p1
              /\ lastRestarted p5 = lastRestarted p in
  (killed (log (state_of o)) = true
   <-> exit_ok (exit_answer e) p2 = true /\ slept e = true /\ same)
  /\ (exit_ok (exit_answer e) p2 = true -> slept e = true -> ~ same ->
      returned o = Some None /\ killed (log (state_of o)) = false).
Proof.
  intros Ha p1 p2 p3 p4 p5 o same.
  destruct (reapProcess_decision config e p Ha) as [K R].
  fold p1 p2 p3 p4 p5 o in K, R.
  assert (G : (negb (pid_of p3 =? 0) && (pid_of p4 =? pid_of p1)
               && (lastRestarted p5 =? lastRestarted p) = true) <-> same).
  { subst same. rewrite !andb_true_iff, negb_true_iff, Z.eqb_neq, !Z.eqb_eq.
    tauto. }
  split.
  - rewrite K.
    destruct (exit_ok (exit_answer e) p2); destruct (slept e); cbn [andb];
      rewrite ?G; intuition discriminate.
  - intros Hx Hs Hn.
    assert (Hgo : negb (pid_of p3 =? 0) && (pid_of p4 =? pid_of p1)
                  && (lastRestarted p5 =? lastRestarted p) = false).
    { apply not_true_is_false. intros Hc. apply Hn, G, Hc. }
    split; [now apply R|]. rewrite K, Hgo, Hx, Hs. reflexivity.
Qed.

(** The pid of the snapshot is reused by a new process during the sleep:
    the timestamp differs and the new process is not killed. *)
Lemma reap_kills_only_the_snapshotted_process_witness :
  let config := {| CheckInterval := 900000000000;
                   ProcessExitTimeout := 15000000000;
                   CheckMaxSleep := 300000000000;
                   DisableProcessRestartOnExit := false;
                   DisableAutoupdate := false |} in
  let p := after [SupStart 100 (Launched 42)]
             (NewProcess 7%N "/app/bin/storagenode" "/app/config/bin"
                ["storagenode"; "run"]) in
  let e := {| exit_answer := None; kill_answer := None; slept := true;
              meanwhile := fun pt =>
                match pt with
                | DuringSleep => [SupWait None; SupStart 200 (Launched 42)]
                | _ => []
                end |} in
  let o := reapProcess config e (fresh p) in
  returned o = Some None /\ killed (log (state_of o)) = false.
Proof.
  intros config p e o.
  apply (reap_kills_only_the_snapshotted_process config e p).
  - discriminate.
  - reflexivity.
  - reflexivity.
  - vm_compute. intros (_ & _ & H). discriminate H.
Defined.



(** C8. The jitter.  [rand.Int63n] at [CheckMaxSleep] gives a duration [d]
    with [0 <= d < CheckMaxSleep], or panics when [CheckMaxSleep <= 0], or,
    in the model, finds every word supplied rejected; and the first sleep of
    every update cycle, when there is one, is such a duration. *)
Theorem jitter_in_range :
  (forall config src,
      match rand.Int63n src (CheckMaxSleep config) with
      | rand.Sample d => 0 <= d < CheckMaxSleep config
      | rand.InvalidArgument => CheckMaxSleep config <= 0
      | rand.Exhausted =>
          0 < CheckMaxSleep config
          /\ Forall (fun word =>
                       2 ^ 63 - 1 - (2 ^ 63) mod (CheckMaxSleep config)
                       < rand.Int63 word) src
      end)
  /\ (forall config e curVersion p,
         match rev (sleeps (log (state_of
                       (Run_cycle config e curVersion (fresh p))))) with
         | d :: _ => 0 <= d < CheckMaxSleep config
         | [] => True
         end).
Proof.
  split.
  - intros config src. apply Int63n_bound.
  - exact Run_cycle_first_sleep.
Qed.

(** ** Claims about the updater and start-up *)

Lemma checkAndApply_current run src paths currentVersion tgt fs :
  target src = Ok tgt ->
  version.IsZero currentVersion = false ->
  version.Less currentVersion tgt = false ->
  checkAndApply run src paths currentVersion fs
  = {| applied := {| newVersion := currentVersion; updated := false;
                     update_err := None |};
       files := fs; steps := [UQueried] |}.
Proof.
  intros Ht Hz Hl. unfold checkAndApply. rewrite Ht, Hz, Hl. reflexivity.
Qed.

(** C4. No downgrade: a current version that is not the zero value and is
    not less than the target gives [updated = false], the version unchanged,
    no error, the files untouched and nothing fetched; such is 1.2.3 against
    the target 1.2.0. *)
Theorem no_downgrade :
  (forall run src paths currentVersion tgt fs,
      target src = Ok tgt ->
      version.IsZero currentVersion = false ->
      version.Compare currentVersion tgt <> Lt ->
      let r := checkAndApply run src paths currentVersion fs in
      updated (applied r) = false
      /\ newVersion (applied r) = currentVersion
      /\ update_err (applied r) = None
      /\ files r = fs
      /\ fetched (steps r) = [])
  /\ (forall run bin paths fs,
         let v123 := {| Major := 1; Minor := 2; Patch := 3; Pre := None |} in
         let v120 := {| Major := 1; Minor := 2; Patch := 0; Pre := None |} in
         let r := checkAndApply run {| target := Ok v120; payload := bin |}
                    paths v123 fs in
         updated (applied r) = false /\ newVersion (applied r) = v123
         /\ fetched (steps r) = []).
Proof.
  split.
  - intros run src paths currentVersion tgt fs Ht Hz Hc r. subst r.
    rewrite (checkAndApply_current run src paths currentVersion tgt fs Ht Hz).
    + repeat split.
    + unfold version.Less.
      destruct (version.Compare currentVersion tgt); congruence.
  - intros. repeat split.
Qed.

Lemma no_downgrade_witness :
  let v200 := {| Major := 2; Minor := 0; Patch := 0; Pre := None |} in
  let rc := {| Major := 2; Minor := 0; Patch := 0; Pre := Some (b "rc1") |} in
  let r := checkAndApply (fun _ => ExecFailed (ErrText "exec format error"))
             {| target := Ok rc; payload := Ok (b "new binary") |}
             {| installed := "/app/bin/storagenode";
                backup := "/app/config/bin/storagenode";
                temp := "/tmp/storagenode" |}
             v200 (fun _ => None) in
  updated (applied r) = false /\ newVersion (applied r) = v200
  /\ update_err (applied r) = None
  /\ files r = (fun _ => None)
  /\ fetched (steps r) = [].
Proof.
  intros v200 rc r.
  destruct no_downgrade as [H _].
  apply (H _ _ _ v200 rc); [reflexivity | reflexivity | discriminate].
Defined.

Section BootProofs.
Variable Join : string -> string -> string.
Variable run : bytes -> ExecResult.


End BootProofs.




(** * Further properties *)

(** ** The handle *)

Lemma run_op_mutex o s :
  mu s = false ->
  mu (state_of (run_op o s)) = false
  /\ (timestamp_guarded (log s) = true ->
      timestamp_guarded (log (state_of (run_op o s))) = true).
Proof.
  intros Hm.
  destruct s as [[c ? ? a ? ?] m l]. simpl in Hm. subst m.
  destruct o as [now [n|e]|status|answer|answer| |];
    destruct c as [[? ? [[?]|]]|]; destruct a; split;
    try reflexivity; intros H; exact H.
Qed.

(** X1. Along every run of operations on a handle the mutex is free again
    after each of them, whether it returned or panicked, and every access to
    the last-start timestamp was made with the mutex held. *)
Theorem mutex_released_timestamp_guarded (ops : list Op) (p : Process) :
  let s1 := state_of (run_ops ops (fresh p)) in
  mu s1 = false /\ timestamp_guarded (log s1) = true.
Proof.
  assert (G : forall ops s,
             mu s = false -> timestamp_guarded (log s) = true ->
             mu (state_of (run_ops ops s)) = false
             /\ timestamp_guarded (log (state_of (run_ops ops s))) = true).
  { clear. induction ops as [|o rest IH]; intros s Hm Hg; [now split|].
    cbn [run_ops]. rewrite state_of_bind.
    destruct (run_op_mutex o s Hm) as [Hm1 Hg1]. specialize (Hg1 Hg).
    destruct (run_op o s) as [[] s1|w s1]; simpl in Hm1, Hg1.
    - now apply IH.
    - now split. }
  apply G; reflexivity.
Qed.

Lemma start_launched_state (s : Shared) (now : Time) (n : positive) :
  mu s = false -> args (proc s) <> [] -> cmd (proc s) = None ->
  exists s1,
    start now (Launched n) s = Value None s1
    /\ pid_of (proc s1) = Zpos n
    /\ lastRestarted (proc s1) = now
    /\ mu s1 = false.
Proof.
  intros Hm Ha Hc.
  destruct s as [[c ? ? a ? ?] m l]. simpl in Hm, Ha, Hc. subst m c.
  destruct a as [|a0 rest]; [contradiction|].
  match goal with
  | |- context [start now (Launched n) ?s] =>
      exists (state_of (start now (Launched n) s))
  end.
  vm_compute. repeat split.
Qed.

(** X2. What [start] records can be read back.  After a [start] that
    launched process [n] at the clock reading [now], [pid] returns [n] and
    [lastRestartedTime] returns [now]; once [wait] has returned, [pid] returns
    0 and [lastRestartedTime] still returns [now]. *)
Theorem start_then_observe (s : Shared) (now : Time) (n : positive)
    (status : option error) :
  mu s = false -> args (proc s) <> [] -> cmd (proc s) = None ->
  exists s1 s2 r,
    start now (Launched n) s = Value None s1
    /\ returned (pid s1) = Some (Zpos n)
    /\ returned (lastRestartedTime s1) = Some now
    /\ wait status s1 = Value r s2
    /\ returned (pid s2) = Some 0
    /\ returned (lastRestartedTime s2) = Some now.
Proof.
  intros Hm Ha Hc.
  destruct (start_launched_state s now n Hm Ha Hc) as (s1 & E & P & T & M1).
  destruct (wait_clears s1 status) as (r & s2 & W & C2 & T2 & M2).
  exists s1, s2, r. split; [exact E|].
  rewrite (pid_run s1 M1), (lastRestartedTime_run s1 M1), P, T.
  rewrite M1 in M2.
  rewrite (pid_run s2 M2), (lastRestartedTime_run s2 M2), T2, T.
  repeat split; try exact W.
  cbn [returned]. unfold pid_of, attached. rewrite C2. reflexivity.
Qed.

Lemma start_then_observe_witness :
  exists s1 s2 r,
    start 100 (Launched 42)
      (fresh (NewProcess 7%N "/app/bin/storagenode" "/app/config/bin"
                ["storagenode"; "run"])) = Value None s1
    /\ returned (pid s1) = Some 42
    /\ returned (lastRestartedTime s1) = Some 100
    /\ wait (Some (ErrText "exit status 2")) s1 = Value r s2
    /\ returned (pid s2) = Some 0
    /\ returned (lastRestartedTime s2) = Some 100.
Proof.
  apply (start_then_observe
           (fresh (NewProcess 7%N "/app/bin/storagenode" "/app/config/bin"
                     ["storagenode"; "run"]))
           100 42 (Some (ErrText "exit status 2")));
    [reflexivity | discriminate | reflexivity].
Defined.

Lemma spawned_app l1 l2 : spawned (l1 ++ l2) = spawned l1 ++ spawned l2.
Proof.
  induction l1 as [|e l1 IH]; [reflexivity|].
  destruct e; simpl; rewrite IH; reflexivity.
Qed.

Lemma sent_app l1 l2 : sent (l1 ++ l2) = sent l1 ++ sent l2.
Proof.
  induction l1 as [|e l1 IH]; [reflexivity|].
  destruct e; simpl; rewrite IH; reflexivity.
Qed.

Lemma start_failed_state (s : Shared) (e : error) (now : Time) :
  mu s = false -> args (proc s) <> [] -> cmd (proc s) = None ->
  exists s1,
    start now (LaunchFailed e) s = Value (errs.Wrap errProcess (Some e)) s1
    /\ launch_failed (proc s1)
    /\ lastRestarted (proc s1) = lastRestarted (proc s)
    /\ spawned (log s1) = spawned (log s)
    /\ calls (log s1) = [MStart] ++ calls (log s)
    /\ sent (log s1) = sent (log s)
    /\ mu s1 = false /\ args (proc s1) = args (proc s).
Proof.
  intros Hm Ha Hc.
  destruct s as [[c ? ? a ? ?] m l]. simpl in Hm, Ha, Hc. subst m c.
  destruct a as [|a0 rest]; [contradiction|].
  eexists. split; [reflexivity|].
  split; [eexists; split; reflexivity|].
  repeat split.
Qed.

(** X3. A launch that fails leaves the handle attached: [start] returns the
    launch error in the class "process", the command stays in [p.cmd] with no
    process, the pid reads 0, the timestamp is as before, and every later
    [start] answers "process already started" without launching anything. *)
Theorem failed_launch_sticks (s : Shared) (e : error) (now : Time) :
  mu s = false -> args (proc s) <> [] -> cmd (proc s) = None ->
  exists s1,
    start now (LaunchFailed e) s = Value (errs.Wrap errProcess (Some e)) s1
    /\ launch_failed (proc s1)
    /\ pid_of (proc s1) = 0
    /\ lastRestarted (proc s1) = lastRestarted (proc s)
    /\ spawned (log s1) = spawned (log s)
    /\ forall now1 launch1,
         start now1 launch1 s1
         = Value (Some errProcessAlreadyStarted)
             (logged [EvRead FCmd (mu s1); EvCall MStart] s1).
Proof.
  intros Hm Ha Hc.
  destruct s as [[c ? ? a ? ?] m l]. simpl in Hm, Ha, Hc. subst m c.
  destruct a as [|a0 rest]; [contradiction|].
  eexists. split; [reflexivity|].
  split; [eexists; split; reflexivity|].
  repeat split.
Qed.

Lemma failed_launch_sticks_witness :
  exists s1,
    start 100 (LaunchFailed (ErrText "fork/exec: no such file or directory"))
      (fresh (NewProcess 7%N "/app/bin/storagenode" "/app/config/bin"
                ["storagenode"; "run"]))
    = Value (Some (ErrClass errProcess
                     (ErrText "fork/exec: no such file or directory"))) s1
    /\ returned (start 200 (Launched 42) s1)
       = Some (Some errProcessAlreadyStarted).
Proof.
  destruct (failed_launch_sticks
              (fresh (NewProcess 7%N "/app/bin/storagenode" "/app/config/bin"
                        ["storagenode"; "run"]))
              (ErrText "fork/exec: no such file or directory") 100)
    as (s1 & H1 & _ & _ & _ & _ & H2);
    [reflexivity | discriminate | reflexivity |].
  exists s1. split; [exact H1|]. rewrite H2. reflexivity.
Defined.

Lemma exit_launch_failed s answer :
  launch_failed (proc s) ->
  exit answer s
  = Aborted (Panic "invalid memory address or nil pointer dereference")
      (logged [EvRead FCmd (mu s); EvRead FCmd (mu s); EvCall MExit] s).
Proof.
  intros (c & Hc & Hp).
  destruct s as [[c0 ? ? ? ? ?] m l]. simpl in Hc. subst c0.
  destruct c as [? ? pr]. simpl in Hp. subst pr. reflexivity.
Qed.

Lemma kill_launch_failed s answer :
  launch_failed (proc s) ->
  kill answer s
  = Aborted (Panic "invalid memory address or nil pointer dereference")
      (logged [EvRead FCmd (mu s); EvRead FCmd (mu s); EvCall MKill] s).
Proof.
  intros (c & Hc & Hp).
  destruct s as [[c0 ? ? ? ? ?] m l]. simpl in Hc. subst c0.
  destruct c as [? ? pr]. simpl in Hp. subst pr. reflexivity.
Qed.

Lemma runProcess_launch_failed s now launch status :
  launch_failed (proc s) ->
  runProcess now launch status s
  = Value (Some errProcessAlreadyStarted)
      (logged [EvRead FCmd (mu s); EvCall MStart] s).
Proof.
  intros (c & Hc & _). unfold runProcess.
  rewrite (bind_value _ _ _ _ _ (start_attached s c now launch Hc)).
  reflexivity.
Qed.

(** X4. After a failed launch the signalling methods panic: [exit], [kill]
    and [Close] on a handle whose command has no process dereference the nil
    process and send nothing; so when the supervision loop, with restart
    disabled, returns a launch error, the [Close] that follows panics. *)
Theorem signal_after_failed_launch_panics :
  (forall s answer,
      launch_failed (proc s) ->
      exists s1,
        exit answer s
        = Aborted (Panic "invalid memory address or nil pointer dereference") s1
        /\ kill answer s
           = Aborted (Panic "invalid memory address or nil pointer dereference")
               (logged [EvRead FCmd (mu s); EvRead FCmd (mu s); EvCall MKill] s)
        /\ Close answer s = exit answer s
        /\ proc s1 = proc s /\ sent (log s1) = sent (log s))
  /\ (forall config t rest s e answer,
         DisableProcessRestartOnExit config = true ->
         mu s = false -> args (proc s) <> [] -> cmd (proc s) = None ->
         ctx_done t = false -> turn_launch t = LaunchFailed e ->
         exists s1 s2,
           Run_process config (t :: rest) s
           = Value (Returned (errs.Wrap errProcess (Some e))) s1
           /\ Close answer s1
              = Aborted
                  (Panic "invalid memory address or nil pointer dereference") s2
           /\ sent (log s2) = sent (log s)).
Proof.
  split.
  - intros s answer H. eexists. split; [apply exit_launch_failed, H|].
    split; [apply kill_launch_failed, H|]. repeat split.
  - intros config t rest s e answer Hd Hm Ha Hc Hx Hl.
    destruct (start_failed_state s e (turn_now t) Hm Ha Hc)
      as (s1 & E1 & L1 & _ & _ & _ & S1 & _).
    assert (R : Run_process config (t :: rest) s
                = Value (Returned (errs.Wrap errProcess (Some e))) s1).
    { assert (RP : runProcess (turn_now t) (LaunchFailed e) (turn_status t) s
                   = Value (errs.Wrap errProcess (Some e)) s1).
      { unfold runProcess. rewrite (bind_value _ _ _ _ _ E1).
        destruct (Wrap_Some errProcess e) as [w Hw]. rewrite Hw. reflexivity. }
      cbn [Run_process]. rewrite Hx, Hl.
      rewrite (bind_value _ _ _ _ _ RP), Hd. reflexivity. }
    exists s1. eexists. split; [exact R|].
    unfold Close. rewrite (exit_launch_failed s1 answer L1).
    split; [reflexivity|].
    cbn [log logged]. rewrite sent_app. cbn [sent app]. exact S1.
Qed.

Lemma signal_after_failed_launch_panics_witness :
  let config := {| CheckInterval := 900000000000;
                   ProcessExitTimeout := 15000000000;
                   CheckMaxSleep := 300000000000;
                   DisableProcessRestartOnExit := true;
                   DisableAutoupdate := true |} in
  let t := {| ctx_done := false; turn_now := 100;
              turn_launch := LaunchFailed (ErrText "exec format error");
              turn_status := None |} in
  let s := fresh (NewProcess 7%N "/app/bin/storagenode" "/app/config/bin"
                    ["storagenode"; "setup"]) in
  exists s1 s2,
    Run_process config [t] s
    = Value (Returned (Some (ErrClass errProcess (ErrText "exec format error"))))
        s1
    /\ Close None s1
       = Aborted (Panic "invalid memory address or nil pointer dereference") s2
    /\ sent (log s2) = sent (log s).
Proof.
  intros config t s.
  destruct signal_after_failed_launch_panics as [_ H].
  apply (H config t [] s (ErrText "exec format error") None);
    try reflexivity; discriminate.
Defined.

(** X5. [exit] and [kill] never change the handle or the mutex, whatever the
    state; they hand the operating system one signal (interrupt, resp. kill)
    for the attached process and none when no process is attached; and with a
    process attached they return what the operating system answered, in the
    class "process". *)
Theorem signals_reach_the_attached_process (s : Shared) (answer : option error) :
  let target sig :=
    match attached (proc s) with
    | Some pr => [(os.Pid pr, sig)]
    | None => []
    end in
  let answered :=
    match cmd (proc s) with
    | None => Some None
    | Some c =>
        match exec.Process c with
        | None => None
        | Some _ => Some (errs.Wrap errProcess answer)
        end
    end in
  (proc (state_of (exit answer s)) = proc s
   /\ mu (state_of (exit answer s)) = mu s
   /\ sent (log (state_of (exit answer s))) = target Interrupt ++ sent (log s)
   /\ returned (exit answer s) = answered)
  /\ (proc (state_of (kill answer s)) = proc s
      /\ mu (state_of (kill answer s)) = mu s
      /\ sent (log (state_of (kill answer s))) = target Kill ++ sent (log s)
      /\ returned (kill answer s) = answered).
Proof.
  destruct s as [[[[? ? [[?]|]]|] ? ? ? ? ?] m l]; repeat split.
Qed.

Lemma runProcess_launched_state (s : Shared) (now : Time) (n : positive)
    (status : option error) :
  mu s = false -> args (proc s) <> [] -> cmd (proc s) = None ->
  exists s1,
    runProcess now (Launched n) status s
    = Value (errs.Wrap errProcess status) s1
    /\ cmd (proc s1) = None
    /\ lastRestarted (proc s1) = now
    /\ spawned (log s1) = n :: spawned (log s)
    /\ calls (log s1) = [MWait; MSetLastRestarted; MStart] ++ calls (log s)
    /\ sent (log s1) = sent (log s)
    /\ mu s1 = false /\ args (proc s1) = args (proc s).
Proof.
  intros Hm Ha Hc.
  destruct s as [[c ? ? a ? ?] m l]. simpl in Hm, Ha, Hc. subst m c.
  destruct a as [|a0 rest]; [contradiction|].
  match goal with
  | |- context [runProcess now (Launched n) status ?s] =>
      exists (state_of (runProcess now (Launched n) status s))
  end.
  vm_compute. repeat split.
Qed.

(** X6. [runProcess] on an unattached handle.  When the launch succeeds it
    returns how the process ended, in the class "process" ([nil] for a clean
    exit), the handle is unattached again, the timestamp is the reading of
    that start and one process was created; when the launch fails it returns
    the launch error, [wait] is not called and the command stays attached. *)
Theorem runProcess_outcome (s : Shared) (now : Time) (launch : LaunchResult)
    (status : option error) :
  mu s = false -> args (proc s) <> [] -> cmd (proc s) = None ->
  exists s1,
    match launch with
    | Launched n =>
        runProcess now launch status s
        = Value (errs.Wrap errProcess status) s1
        /\ cmd (proc s1) = None
        /\ lastRestarted (proc s1) = now
        /\ spawned (log s1) = n :: spawned (log s)
        /\ calls (log s1)
           = [MWait; MSetLastRestarted; MStart] ++ calls (log s)
    | LaunchFailed e =>
        runProcess now launch status s
        = Value (errs.Wrap errProcess (Some e)) s1
        /\ launch_failed (proc s1)
        /\ lastRestarted (proc s1) = lastRestarted (proc s)
        /\ spawned (log s1) = spawned (log s)
        /\ calls (log s1) = [MStart] ++ calls (log s)
    end
    /\ mu s1 = false /\ args (proc s1) = args (proc s).
Proof.
  intros Hm Ha Hc.
  destruct launch as [n|e].
  - destruct (runProcess_launched_state s now n status Hm Ha Hc)
      as (s1 & E & C & T & Sp & Ca & _ & M1 & A1).
    exists s1. repeat split; assumption.
  - destruct (start_failed_state s e now Hm Ha Hc)
      as (s1 & E & L & T & Sp & C & _ & M1 & A1).
    exists s1. split; [|split; assumption].
    split; [|repeat split; assumption].
    unfold runProcess. rewrite (bind_value _ _ _ _ _ E).
    destruct (Wrap_Some errProcess e) as [w Hw]. rewrite Hw. reflexivity.
Qed.

Lemma runProcess_outcome_witness :
  exists s1,
    runProcess 100 (Launched 42) (Some (ErrText "exit status 1"))
      (fresh (NewProcess 7%N "/app/bin/storagenode" "/app/config/bin"
                ["storagenode"; "run"]))
    = Value (Some (ErrClass errProcess (ErrText "exit status 1"))) s1
    /\ cmd (proc s1) = None
    /\ lastRestarted (proc s1) = 100
    /\ spawned (log s1) = [42%positive].
Proof.
  destruct (runProcess_outcome
              (fresh (NewProcess 7%N "/app/bin/storagenode" "/app/config/bin"
                        ["storagenode"; "run"]))
              100 (Launched 42) (Some (ErrText "exit status 1")))
    as (s1 & (H1 & H2 & H3 & H4 & _) & _);
    [reflexivity | discriminate | reflexivity |].
  exists s1. repeat split; assumption.
Defined.

Lemma Run_process_stuck config turns : forall s,
  launch_failed (proc s) ->
  exists r s1,
    Run_process config turns s = Value r s1
    /\ proc s1 = proc s
    /\ spawned (log s1) = spawned (log s)
    /\ sent (log s1) = sent (log s)
    /\ (r = Running \/ r = Returned (Some contextCanceled)
        \/ (DisableProcessRestartOnExit config = true
            /\ r = Returned (Some errProcessAlreadyStarted))).
Proof.
  induction turns as [|t rest IH]; intros s H.
  - exists Running, s. repeat split. now left.
  - cbn [Run_process]. destruct (ctx_done t).
    + exists (Returned (Some contextCanceled)), s. repeat split.
      right. now left.
    + rewrite (bind_value _ _ _ _ _
                 (runProcess_launch_failed s (turn_now t) (turn_launch t)
                    (turn_status t) H)).
      destruct (DisableProcessRestartOnExit config) eqn:D.
      * eexists. eexists. split; [reflexivity|]. repeat split.
        right. right. now split.
      * destruct (IH (logged [EvRead FCmd (mu s); EvCall MStart] s) H)
          as (r & s1 & E & P & Sp & Se & R).
        exists r, s1. repeat split; assumption.
Qed.

(** X7. The restart loop.  With restart-on-exit enabled, the handle
    unattached and every turn finding the context live and its launch
    succeeding, the loop runs every turn, whatever the exit status of each
    worker: it does not return, each turn creates one process and collects it,
    the handle is unattached after the last one, and the loop sends no
    signal. *)
Theorem restart_loop_relaunches (config : Config) (turns : list Turn) :
  DisableProcessRestartOnExit config = false ->
  Forall launches turns ->
  forall s,
    mu s = false -> args (proc s) <> [] -> cmd (proc s) = None ->
    exists s1,
      Run_process config turns s = Value Running s1
      /\ cmd (proc s1) = None
      /\ List.length (spawned (log s1))
         = (List.length turns + List.length (spawned (log s)))%nat
      /\ sent (log s1) = sent (log s).
Proof.
  intros D F. induction F as [|t rest [Hx [n Hl]] F IH]; intros s Hm Ha Hc.
  - exists s. repeat split; assumption.
  - destruct (runProcess_launched_state s (turn_now t) n (turn_status t)
                Hm Ha Hc) as (s1 & E & C1 & _ & Sp & _ & Se & M1 & A1).
    rewrite <- A1 in Ha.
    destruct (IH s1 M1 Ha C1) as (s2 & E2 & C2 & L2 & S2).
    exists s2. cbn [Run_process]. rewrite Hx, Hl.
    rewrite (bind_value _ _ _ _ _ E), D.
    repeat split; try assumption.
    + rewrite L2, Sp. cbn [List.length]. lia.
    + congruence.
Qed.

Lemma restart_loop_relaunches_witness :
  let config := {| CheckInterval := 900000000000;
                   ProcessExitTimeout := 15000000000;
                   CheckMaxSleep := 300000000000;
                   DisableProcessRestartOnExit := false;
                   DisableAutoupdate := false |} in
  let crash n t := {| ctx_done := false; turn_now := t;
                      turn_launch := Launched n;
                      turn_status := Some (ErrText "exit status 1") |} in
  exists s1,
    Run_process config [crash 41%positive 100; crash 42%positive 200;
                        crash 43%positive 300]
      (fresh (NewProcess 7%N "/app/bin/storagenode" "/app/config/bin"
                ["storagenode"; "run"]))
    = Value Running s1
    /\ cmd (proc s1) = None
    /\ List.length (spawned (log s1)) = 3%nat
    /\ sent (log s1) = [].
Proof.
  intros config crash.
  apply (restart_loop_relaunches config
           [crash 41%positive 100; crash 42%positive 200;
            crash 43%positive 300]).
  - reflexivity.
  - repeat constructor; eexists; reflexivity.
  - reflexivity.
  - discriminate.
  - reflexivity.
Defined.

(** X8. With restart-on-exit enabled the supervision loop returns nothing
    but the cancellation of the context: no launch error and no exit status
    of the worker ends it, and it returns only at a turn that finds the
    context done. *)
Theorem restart_loop_returns_only_cancellation (config : Config)
    (turns : list Turn) :
  DisableProcessRestartOnExit config = false ->
  forall s r s1,
    Run_process config turns s = Value (Returned r) s1 ->
    r = Some contextCanceled /\ Exists (fun t => ctx_done t = true) turns.
Proof.
  intros D. induction turns as [|t rest IH]; intros s r s1 H.
  - discriminate H.
  - cbn [Run_process] in H. destruct (ctx_done t) eqn:Hx.
    + inversion H. split; [reflexivity|]. now constructor.
    + unfold bind in H.
      destruct (runProcess (turn_now t) (turn_launch t) (turn_status t) s)
        as [err s2|w s2]; [|discriminate H].
      rewrite D in H. destruct (IH _ _ _ H) as [Hr He].
      split; [exact Hr|]. now apply Exists_cons_tl.
Qed.

Lemma restart_loop_returns_only_cancellation_witness :
  let config := {| CheckInterval := 900000000000;
                   ProcessExitTimeout := 15000000000;
                   CheckMaxSleep := 300000000000;
                   DisableProcessRestartOnExit := false;
                   DisableAutoupdate := false |} in
  let turns := [{| ctx_done := false; turn_now := 100;
                   turn_launch := Launched 41;
                   turn_status := Some (ErrText "signal: killed") |};
                {| ctx_done := true; turn_now := 200;
                   turn_launch := Launched 42; turn_status := None |}] in
  let s := fresh (NewProcess 7%N "/app/bin/storagenode" "/app/config/bin"
                    ["storagenode"; "run"]) in
  Some contextCanceled = Some contextCanceled
  /\ Exists (fun t => ctx_done t = true) turns.
Proof.
  intros config turns s.
  apply (restart_loop_returns_only_cancellation config turns eq_refl s
           (Some contextCanceled)
           (state_of (Run_process config turns s))).
  vm_compute. reflexivity.
Defined.

(** X9. With restart-on-exit enabled a failed launch is never retried: the
    turn of the failure leaves the command attached, every later turn gets
    "process already started" from [start], and however many turns follow and
    whatever their launches would answer, no process is created and nothing
    is signalled; the loop only spins until the context is done. *)
Theorem restart_loop_never_relaunches_after_failure (config : Config)
    (t : Turn) (rest : list Turn) (s : Shared) (e : error) :
  DisableProcessRestartOnExit config = false ->
  mu s = false -> args (proc s) <> [] -> cmd (proc s) = None ->
  ctx_done t = false -> turn_launch t = LaunchFailed e ->
  exists r s1,
    Run_process config (t :: rest) s = Value r s1
    /\ launch_failed (proc s1)
    /\ spawned (log s1) = spawned (log s)
    /\ sent (log s1) = sent (log s)
    /\ (r = Running \/ r = Returned (Some contextCanceled)).
Proof.
  intros D Hm Ha Hc Hx Hl.
  destruct (start_failed_state s e (turn_now t) Hm Ha Hc)
    as (s1 & E1 & L1 & _ & Sp1 & _ & Se1 & _).
  assert (RP : runProcess (turn_now t) (LaunchFailed e) (turn_status t) s
               = Value (errs.Wrap errProcess (Some e)) s1).
  { unfold runProcess. rewrite (bind_value _ _ _ _ _ E1).
    destruct (Wrap_Some errProcess e) as [w Hw]. rewrite Hw. reflexivity. }
  destruct (Run_process_stuck config rest s1 L1)
    as (r & s2 & E2 & P2 & Sp2 & Se2 & R2).
  exists r, s2. cbn [Run_process]. rewrite Hx, Hl.
  rewrite (bind_value _ _ _ _ _ RP), D.
  split; [exact E2|]. split; [now rewrite P2|].
  split; [congruence|]. split; [congruence|].
  destruct R2 as [R2|[R2|[R2 _]]]; [now left | now right | congruence].
Qed.

Lemma restart_loop_never_relaunches_after_failure_witness :
  let config := {| CheckInterval := 900000000000;
                   ProcessExitTimeout := 15000000000;
                   CheckMaxSleep := 300000000000;
                   DisableProcessRestartOnExit := false;
                   DisableAutoupdate := false |} in
  let t := {| ctx_done := false; turn_now := 100;
              turn_launch := LaunchFailed (ErrText "text file busy");
              turn_status := None |} in
  let later n := {| ctx_done := false; turn_now := 200;
                    turn_launch := Launched n; turn_status := None |} in
  let s := fresh (NewProcess 7%N "/app/bin/storagenode" "/app/config/bin"
                    ["storagenode"; "run"]) in
  exists r s1,
    Run_process config [t; later 41%positive; later 42%positive] s
    = Value r s1
    /\ launch_failed (proc s1)
    /\ spawned (log s1) = spawned (log s)
    /\ sent (log s1) = sent (log s)
    /\ (r = Running \/ r = Returned (Some contextCanceled)).
Proof.
  intros config t later s.
  apply (restart_loop_never_relaunches_after_failure config t
           [later 41%positive; later 42%positive] s
           (ErrText "text file busy"));
    try reflexivity; discriminate.
Defined.

(** ** The scanner and [parseVersion] *)

Lemma scan_from_line v : forall cur n tail,
  ~ In LF v ->
  n = N.of_nat (List.length cur) ->
  (N.of_nat (List.length cur + List.length v) < bufio.MaxScanTokenSize)%N ->
  bufio.scan_from (v ++ LF :: tail) cur n
  = bufio.dropCR (rev cur ++ v) :: bufio.scan_from tail [] 0%N.
Proof.
  induction v as [|c v IH]; intros cur n tail Hn Hl Hs.
  - cbn [app bufio.scan_from]. rewrite Ascii.eqb_refl, app_nil_r. reflexivity.
  - cbn [app bufio.scan_from].
    destruct (Ascii.eqb_spec c LF) as [->|Hc].
    + exfalso. apply Hn. now left.
    + cbn [List.length] in Hs.
      destruct (N.eqb_spec (N.succ n) bufio.MaxScanTokenSize) as [E|_]; [lia|].
      rewrite (IH (c :: cur) (N.succ n) tail).
      * cbn [rev]. rewrite <- app_assoc. reflexivity.
      * intros H. apply Hn. now right.
      * cbn [List.length]. lia.
      * cbn [List.length]. replace (S (List.length cur) + List.length v)%nat
          with (List.length cur + S (List.length v))%nat by lia. exact Hs.
Qed.

Lemma scan_from_last v : forall cur n,
  ~ In LF v ->
  n = N.of_nat (List.length cur) ->
  (N.of_nat (List.length cur + List.length v) < bufio.MaxScanTokenSize)%N ->
  rev cur ++ v <> [] ->
  bufio.scan_from v cur n = [bufio.dropCR (rev cur ++ v)].
Proof.
  induction v as [|c v IH]; intros cur n Hn Hl Hs Hne.
  - cbn [bufio.scan_from]. rewrite app_nil_r in *.
    destruct cur as [|x cur]; [now destruct Hne|].
    subst n. cbn [List.length].
    destruct (N.eqb_spec (N.of_nat (S (List.length cur))) 0%N) as [E|_]; [lia|].
    reflexivity.
  - cbn [bufio.scan_from].
    destruct (Ascii.eqb_spec c LF) as [->|Hc].
    + exfalso. apply Hn. now left.
    + cbn [List.length] in Hs.
      destruct (N.eqb_spec (N.succ n) bufio.MaxScanTokenSize) as [E|_]; [lia|].
      rewrite (IH (c :: cur) (N.succ n)).
      * cbn [rev]. rewrite <- app_assoc. reflexivity.
      * intros H. apply Hn. now right.
      * cbn [List.length]. lia.
      * cbn [List.length]. replace (S (List.length cur) + List.length v)%nat
          with (List.length cur + S (List.length v))%nat by lia. exact Hs.
      * cbn [rev]. rewrite <- app_assoc. cbn [app].
        intros H. apply app_eq_nil in H. destruct H as [_ H]. discriminate H.
Qed.

Lemma scan_from_long junk : forall cur n tail,
  ~ In LF junk ->
  n = N.of_nat (List.length cur) ->
  (n < bufio.MaxScanTokenSize)%N ->
  (bufio.MaxScanTokenSize <= N.of_nat (List.length cur + List.length junk))%N ->
  bufio.scan_from (junk ++ tail) cur n = [].
Proof.
  induction junk as [|c junk IH]; intros cur n tail Hn Hl Hlt Hs.
  - cbn [List.length] in Hs. lia.
  - cbn [app bufio.scan_from].
    destruct (Ascii.eqb_spec c LF) as [->|Hc].
    + exfalso. apply Hn. now left.
    + destruct (N.eqb_spec (N.succ n) bufio.MaxScanTokenSize) as [E|E];
        [reflexivity|].
      apply IH.
      * intros H. apply Hn. now right.
      * cbn [List.length]. lia.
      * lia.
      * cbn [List.length] in *.
        replace (S (List.length cur) + List.length junk)%nat
          with (List.length cur + S (List.length junk))%nat by lia. exact Hs.
Qed.

Lemma dropCR_after x : forall c w,
  c <> CR -> bufio.dropCR (x ++ c :: w) = x ++ c :: bufio.dropCR w.
Proof.
  induction x as [|a x IH]; intros c w Hc.
  - cbn [app]. destruct w as [|d w].
    + cbn. destruct (Ascii.eqb_spec c CR); [contradiction | reflexivity].
    + reflexivity.
  - cbn [app]. rewrite <- (IH c w Hc).
    destruct (x ++ c :: w) eqn:E; [|reflexivity].
    apply app_eq_nil in E. destruct E as [_ E]. discriminate E.
Qed.

Lemma dropCR_versionPrefix w :
  bufio.dropCR (versionPrefix ++ w) = versionPrefix ++ bufio.dropCR w.
Proof.
  change versionPrefix with (b "Version:" ++ [" "%char]).
  rewrite <- !app_assoc. cbn [app]. apply dropCR_after. discriminate.
Qed.

(** X10. The first version line decides.  When the output begins with
    "Version: " followed by [w], a line that fits the buffer of the scanner,
    [parseVersion] returns what [version.NewSemVer] makes of [w] less one
    trailing CR, whether the line ends the output or a line feed and anything
    at all follow it. *)
Theorem parseVersion_first_line (w tail : bytes) :
  ~ In LF w ->
  (N.of_nat (9 + List.length w) < bufio.MaxScanTokenSize)%N ->
  parseVersion (versionPrefix ++ w ++ LF :: tail)
  = version.NewSemVer (bufio.dropCR w)
  /\ parseVersion (versionPrefix ++ w) = version.NewSemVer (bufio.dropCR w).
Proof.
  intros Hn Hs.
  assert (Hn' : ~ In LF (versionPrefix ++ w)).
  { intros H. apply in_app_or in H. destruct H as [H|H]; [|now apply Hn].
    vm_compute in H. intuition discriminate. }
  assert (Hp : strings.HasPrefix (versionPrefix ++ bufio.dropCR w) versionPrefix
               = true) by reflexivity.
  assert (Hk : skipn (List.length versionPrefix) (versionPrefix ++ bufio.dropCR w)
               = bufio.dropCR w) by reflexivity.
  split.
  - unfold parseVersion, bufio.Scanner_tokens. rewrite app_assoc.
    rewrite (scan_from_line (versionPrefix ++ w) [] 0%N tail Hn' eq_refl).
    + cbn [rev app parseVersion_scan]. rewrite dropCR_versionPrefix, Hp, Hk.
      reflexivity.
    + rewrite length_app. exact Hs.
  - unfold parseVersion, bufio.Scanner_tokens.
    rewrite (scan_from_last (versionPrefix ++ w) [] 0%N Hn' eq_refl).
    + cbn [rev app parseVersion_scan]. rewrite dropCR_versionPrefix, Hp, Hk.
      reflexivity.
    + rewrite length_app. exact Hs.
    + discriminate.
Qed.

Lemma parseVersion_first_line_witness :
  parseVersion (versionPrefix ++ b "v1.84.2" ++ [CR]
                ++ LF :: b "Build timestamp: 01 Jan 24" ++ [LF]
                ++ b "Version: 9.9.9" ++ [LF])
  = version.NewSemVer (bufio.dropCR (b "v1.84.2" ++ [CR])).
Proof.
  apply (parseVersion_first_line (b "v1.84.2" ++ [CR])
           (b "Build timestamp: 01 Jan 24" ++ [LF]
            ++ b "Version: 9.9.9" ++ [LF])).
  - vm_compute. intuition discriminate.
  - vm_compute. reflexivity.
Defined.

(** X11. Lines before the version line are passed over: a first line that
    fits the buffer of the scanner and does not begin with "Version: " changes
    nothing, [parseVersion] gives what it gives on the rest of the output. *)
Theorem parseVersion_skips_other_lines (v tail : bytes) :
  ~ In LF v ->
  (N.of_nat (List.length v) < bufio.MaxScanTokenSize)%N ->
  strings.HasPrefix v versionPrefix = false ->
  parseVersion (v ++ LF :: tail) = parseVersion tail.
Proof.
  intros Hn Hs Hp. unfold parseVersion, bufio.Scanner_tokens.
  rewrite (scan_from_line v [] 0%N tail Hn eq_refl Hs).
  cbn [rev app parseVersion_scan]. rewrite HasPrefix_dropCR_eq, Hp.
  reflexivity.
Qed.

Lemma parseVersion_skips_other_lines_witness :
  parseVersion (b "Release build" ++ LF :: b "Version: 1.2.3" ++ [LF])
  = parseVersion (b "Version: 1.2.3" ++ [LF]).
Proof.
  apply (parseVersion_skips_other_lines (b "Release build")
           (b "Version: 1.2.3" ++ [LF])).
  - vm_compute. intuition discriminate.
  - vm_compute. reflexivity.
  - reflexivity.
Defined.

(** X12. A line that does not fit the buffer of the scanner ends the scan:
    when the output begins with [MaxScanTokenSize] bytes or more without a
    line feed, [parseVersion] fails with "unable to determine binary version"
    whatever follows, a well-formed version line included. *)
Theorem parseVersion_long_line (junk tail : bytes) :
  ~ In LF junk ->
  (bufio.MaxScanTokenSize <= N.of_nat (List.length junk))%N ->
  parseVersion (junk ++ tail) = Err errNoVersion.
Proof.
  intros Hn Hs. unfold parseVersion, bufio.Scanner_tokens.
  rewrite (scan_from_long junk [] 0%N tail Hn eq_refl); [reflexivity| |exact Hs].
  reflexivity.
Qed.

Lemma parseVersion_long_line_witness :
  parseVersion (repeat "a"%char (N.to_nat 65536)
                ++ LF :: b "Version: 1.2.3" ++ [LF])
  = Err errNoVersion.
Proof.
  apply (parseVersion_long_line (repeat "a"%char (N.to_nat 65536))
           (LF :: b "Version: 1.2.3" ++ [LF])).
  - intros H. apply repeat_spec in H. discriminate H.
  - vm_compute. discriminate.
Defined.

(** ** [copyBinary] and start-up *)

(** X13. When [copyBinary] fails.  A missing source gives an error and
    leaves every file as it was, the destination not even created; a failure
    of the copy itself gives an error too, with the destination already
    created and every other file as it was. *)
Theorem copyBinary_failures (io : option error) (dest src : string) (fs : FS) :
  (fs src = None ->
   fst (copyBinary io dest src fs) <> None
   /\ snd (copyBinary io dest src fs) = fs)
  /\ (forall content er,
         fs src = Some content -> io = Some er ->
         fst (copyBinary io dest src fs) <> None
         /\ snd (copyBinary io dest src fs) dest <> None
         /\ forall q, q <> dest -> snd (copyBinary io dest src fs) q = fs q).
Proof.
  split.
  - intros H. unfold copyBinary. rewrite H. split; [discriminate | reflexivity].
  - intros content er H Hio. unfold copyBinary. rewrite H, Hio.
    cbn [fst snd]. split; [|split].
    + destruct er; discriminate.
    + unfold fs_write. rewrite String.eqb_refl. discriminate.
    + intros q Hq. unfold fs_write.
      apply String.eqb_neq in Hq. rewrite Hq. reflexivity.
Qed.

Lemma copyBinary_failures_witness :
  let fs := fs_write "/app/config/bin/storagenode" (b "storagenode 1.0.0")
              (fun _ => None) in
  fst (copyBinary None "/app/bin/storagenode" "/app/config/bin/missing" fs)
  <> None
  /\ snd (copyBinary None "/app/bin/storagenode" "/app/config/bin/missing" fs)
     = fs.
Proof.
  intros fs.
  destruct (copyBinary_failures None "/app/bin/storagenode"
              "/app/config/bin/missing" fs) as [H _].
  apply H. reflexivity.
Defined.

(** X14. When [copyBinary] succeeds it returns [nil], the destination
    begins with the bytes of the source, and every other file is as it was.
    The destination is opened without truncation: it is exactly the source
    when it did not exist or was not longer, and when it was longer it keeps
    its old length, the old bytes staying behind the copy. *)
Theorem copyBinary_overwrites_in_place (dest src : string) (fs : FS)
    (content : bytes) :
  fs src = Some content ->
  let old := match fs dest with Some o => o | None => [] end in
  let fs1 := snd (copyBinary None dest src fs) in
  fst (copyBinary None dest src fs) = None
  /\ (forall q, q <> dest -> fs1 q = fs q)
  /\ (exists tail, fs1 dest = Some (content ++ tail)
                   /\ ((List.length old <= List.length content)%nat ->
                       tail = [])
                   /\ ((List.length content < List.length old)%nat ->
                       tail <> []
                       /\ List.length (content ++ tail) = List.length old)).
Proof.
  intros H old fs1. subst fs1. unfold copyBinary. rewrite H. cbn [fst snd].
  fold old. split; [reflexivity|]. split.
  - intros q Hq. unfold fs_write.
    apply String.eqb_neq in Hq. rewrite Hq. reflexivity.
  - exists (skipn (List.length content) old). split; [|split].
    + unfold fs_write. rewrite String.eqb_refl. reflexivity.
    + intros Hle. now apply skipn_all2.
    + intros Hlt. split.
      * intros E. apply (f_equal (@List.length _)) in E.
        rewrite length_skipn in E. cbn in E. lia.
      * rewrite length_app, length_skipn. lia.
Qed.

Lemma copyBinary_overwrites_in_place_witness :
  let fs := fs_write "/app/bin/storagenode" (b "an older, longer binary")
              (fs_write "/app/config/bin/storagenode" (b "backup")
                 (fun _ => None)) in
  let fs1 := snd (copyBinary None "/app/bin/storagenode"
                    "/app/config/bin/storagenode" fs) in
  exists tail, fs1 "/app/bin/storagenode" = Some (b "backup" ++ tail)
               /\ tail <> [].
Proof.
  intros fs fs1.
  destruct (copyBinary_overwrites_in_place "/app/bin/storagenode"
              "/app/config/bin/storagenode" fs (b "backup") eq_refl)
    as (_ & _ & tail & H1 & _ & H3).
  exists tail. split; [exact H1|]. apply H3. vm_compute. lia.
Defined.

Section BootMore.
Variable Join : string -> string -> string.
Variable run : bytes -> ExecResult.

End BootMore.


(** X16. With the installed binary in place start-up does not ask it for
    its version: nothing is copied, no version is queried, and
    update-before-first-run, unless disabled, is called with the zero version;
    when it is disabled start-up goes straight to [Run] and leaves every file
    as it was. *)
Theorem startup_with_binary_installed
    (Join : string -> string -> string) (run : bytes -> ExecResult)
    (e : BootEnv) (cfg : config) (args : list string) (fs : FS)
    (bin : bytes) (id : NodeID) :
  (if N.eqb (NodeID_ cfg) 0 then identity e else Ok (NodeID_ cfg)) = Ok id ->
  fs (BinaryLocation cfg) = Some bin ->
  let booted := execSupervisor Join run e cfg args fs in
  updates (boot_steps booted)
  = (if DisableUpdateBeforeFirstRun cfg then [] else [version.zero])
  /\ ~ In BVersion (boot_steps booted)
  /\ (forall dest src, ~ In (BCopy dest src) (boot_steps booted))
  /\ (DisableUpdateBeforeFirstRun cfg = true ->
      boot_steps booted = [BRun] /\ boot_fs booted = fs).
Proof.
  intros Hid Hb booted. subst booted. unfold execSupervisor.
  rewrite Hid. unfold execSupervisor_check, fs_exists. rewrite Hb.
  destruct (DisableUpdateBeforeFirstRun cfg); cbn [negb].
  - cbn. repeat split; try intuition discriminate.
  - destruct (update_err _); cbn; repeat split;
      try intuition discriminate.
Qed.

Lemma startup_with_binary_installed_witness :
  let Join := fun d f => (d ++ "/" ++ f)%string in
  let run := fun _ : bytes => Output (b "Version: 1.0.0" ++ [LF]) in
  let cfg := {| Config_ := {| CheckInterval := 900000000000;
                              ProcessExitTimeout := 15000000000;
                              CheckMaxSleep := 300000000000;
                              DisableProcessRestartOnExit := false;
                              DisableAutoupdate := false |};
                CheckTimeout := 60000000000;
                BinaryLocation := "/app/bin/storagenode";
                BinaryStoreDir := "/app/config/bin";
                VersionServerAddress := "https://version.storj.io";
                NodeID_ := 7%N;
                IdentityDir := "/app/identity";
                DisableUpdateBeforeFirstRun := false |} in
  let e := {| identity := Ok 7%N; copy_err := None;
              source := {| target := Err (ErrText "connection refused");
                           payload := Err (ErrText "not fetched") |};
              temp_path := "/tmp/storagenode";
              run_err := None; close_err := None |} in
  let fs := fs_write "/app/bin/storagenode" (b "storagenode 1.0.0")
              (fun _ => None) in
  updates (boot_steps (execSupervisor Join run e cfg ["storagenode"; "run"] fs))
  = [version.zero].
Proof.
  intros Join run cfg e fs.
  destruct (startup_with_binary_installed Join run e cfg
              ["storagenode"; "run"] fs (b "storagenode 1.0.0") 7%N)
    as [H _]; [reflexivity | reflexivity |].
  exact H.
Defined.

(** X17. A restore that fails in the copy is not tried again: the
    destination was created before the copy, so the block that checks the
    binary returns the error now, and run again on the files it leaves it
    finds a binary installed, copies nothing and starts from the zero
    version. *)
Theorem failed_restore_is_not_retried
    (Join : string -> string -> string) (run : bytes -> ExecResult)
    (e e1 : BootEnv) (cfg : config) (fs : FS) (bin : bytes) (er : error) :
  fs (BinaryLocation cfg) = None ->
  fs (Join (BinaryStoreDir cfg) "storagenode") = Some bin ->
  copy_err e = Some er ->
  exists err fs1 st,
    execSupervisor_check Join run e cfg fs
    = (Some err, (version.zero, cfg, fs1, st))
    /\ execSupervisor_check Join run e1 cfg fs1
       = (None, (version.zero, cfg, fs1, [])).
Proof.
  intros Hi Hb Hc. unfold execSupervisor_check at 1. unfold fs_exists.
  rewrite Hi, Hb. unfold copyBinary. rewrite Hb, Hc, Hi.
  assert (W : exists w, errs.WrapPlain (Some er) = Some w)
    by (destruct er; eexists; reflexivity).
  destruct W as [w Hw]. rewrite Hw.
  eexists. eexists. eexists. split; [reflexivity|].
  unfold execSupervisor_check, fs_exists, fs_write.
  rewrite String.eqb_refl. reflexivity.
Qed.

Lemma failed_restore_is_not_retried_witness :
  let Join := fun d f => (d ++ "/" ++ f)%string in
  let run := fun _ : bytes => Output (b "Version: 1.0.0" ++ [LF]) in
  let cfg := {| Config_ := {| CheckInterval := 900000000000;
                              ProcessExitTimeout := 15000000000;
                              CheckMaxSleep := 300000000000;
                              DisableProcessRestartOnExit := false;
                              DisableAutoupdate := false |};
                CheckTimeout := 60000000000;
                BinaryLocation := "/app/bin/storagenode";
                BinaryStoreDir := "/app/config/bin";
                VersionServerAddress := "https://version.storj.io";
                NodeID_ := 7%N;
                IdentityDir := "/app/identity";
                DisableUpdateBeforeFirstRun := true |} in
  let e := {| identity := Ok 7%N;
              copy_err := Some (ErrText "no space left on device");
              source := {| target := Err (ErrText "connection refused");
                           payload := Err (ErrText "not fetched") |};
              temp_path := "/tmp/storagenode";
              run_err := None; close_err := None |} in
  let fs := fs_write "/app/config/bin/storagenode" (b "storagenode 1.0.0")
              (fun _ => None) in
  exists err fs1 st,
    execSupervisor_check Join run e cfg fs
    = (Some err, (version.zero, cfg, fs1, st))
    /\ execSupervisor_check Join run e cfg fs1
       = (None, (version.zero, cfg, fs1, [])).
Proof.
  intros Join run cfg e fs.
  apply (failed_restore_is_not_retried Join run e e cfg fs
           (b "storagenode 1.0.0") (ErrText "no space left on device"));
    reflexivity.
Defined.

(** ** What [reapProcess] sends and returns *)

Lemma sup_op_silent o s :
  ready s ->
  sent (log (state_of (sup_op o s))) = sent (log s)
  /\ sleeps (log (state_of (sup_op o s))) = sleeps (log s).
Proof.
  intros [Hm Ha].
  destruct s as [[c ? ? a ? ?] m l]. simpl in Hm, Ha. subst m.
  destruct a as [|a0 rest]; [contradiction|].
  destruct c as [[? ? [[?]|]]|]; destruct o as [now [n|e]|status];
    split; reflexivity.
Qed.

Lemma yield_silent ops : forall s,
  ready s ->
  sent (log (yielded ops s)) = sent (log s)
  /\ sleeps (log (yielded ops s)) = sleeps (log s).
Proof.
  unfold yielded. induction ops as [|o rest IH]; intros s H.
  - split; reflexivity.
  - destruct (sup_op_ready o s H) as (s1 & E1 & R1 & _ & _).
    destruct (sup_op_silent o s H) as [S1 L1]. rewrite E1 in S1, L1.
    rewrite yield_cons, E1. destruct (IH s1 R1) as [S2 L2].
    cbn [state_of] in S1, L1. split; congruence.
Qed.

Lemma tracked_fresh p : args p <> [] -> tracked (fresh p) p [] [].
Proof. intros H. repeat split. exact H. Qed.

Lemma tracked_logged evs s p sg sl :
  sent evs = [] -> sleeps evs = [] ->
  tracked s p sg sl -> tracked (logged evs s) p sg sl.
Proof.
  intros He Hl (R & P & S & L). repeat split; try apply R; try exact P.
  - cbn [log logged]. rewrite sent_app, He. exact S.
  - cbn [log logged]. rewrite sleeps_app, Hl. exact L.
Qed.

Lemma tracked_lastRestartedTime s p sg sl :
  tracked s p sg sl ->
  exists s1, lastRestartedTime s = Value (lastRestarted p) s1
             /\ tracked s1 p sg sl.
Proof.
  intros T. pose proof T as ((Hm & _) & P & _).
  rewrite (lastRestartedTime_run s Hm), P.
  eexists. split; [reflexivity|]. now apply tracked_logged.
Qed.

Lemma pid_silent p :
  sent (log (state_of (pid (fresh p)))) = []
  /\ sleeps (log (state_of (pid (fresh p)))) = [].
Proof.
  destruct p as [[[? ? [[?]|]]|] ? ? ? ? ?]; split; reflexivity.
Qed.

Lemma tracked_pid s p sg sl :
  tracked s p sg sl ->
  exists s1, pid s = Value (pid_of p) s1 /\ tracked s1 p sg sl.
Proof.
  intros T. pose proof T as ((Hm & _) & P & _).
  rewrite (pid_run s Hm), P.
  eexists. split; [reflexivity|].
  destruct (pid_silent p). now apply tracked_logged.
Qed.

Lemma tracked_yield ops s p sg sl :
  tracked s p sg sl ->
  exists s1, yield ops s = Value tt s1 /\ tracked s1 (after ops p) sg sl.
Proof.
  intros (R & P & S & L).
  destruct (yield_ready ops s R) as (Y & RY & _ & PY).
  destruct (yield_silent ops s R) as [SY LY].
  exists (yielded ops s). split; [exact Y|].
  repeat split; try apply RY; congruence.
Qed.

Lemma tracked_Sleep d completed s p sg sl :
  tracked s p sg sl ->
  exists s1, sync2.Sleep d completed s = Value completed s1
             /\ tracked s1 p sg (d :: sl).
Proof.
  intros (R & P & S & L). rewrite Sleep_run. eexists. split; [reflexivity|].
  repeat split; try apply R; try exact P; cbn; congruence.
Qed.

(** [exit] from a tracked state does what it does on the handle alone. *)
Lemma tracked_exit answer s p sg sl :
  tracked s p sg sl ->
  match returned (exit answer (fresh p)) with
  | Some r =>
      exists s1, exit answer s = Value r s1
                 /\ tracked s1 p (signal_to p Interrupt ++ sg) sl
  | None =>
      exists w s1, exit answer s = Aborted w s1
                   /\ sent (log s1) = sg /\ sleeps (log s1) = sl
  end.
Proof.
  intros ((Hm & Ha) & P & S & L).
  rewrite (exit_run s answer Hm), P. subst sg sl.
  destruct p as [[[? ? [[?]|]]|] ? ? ? ? ?]; cbn [returned].
  - eexists. split; [reflexivity|]. repeat split; assumption.
  - eexists. eexists. split; [reflexivity|]. split; reflexivity.
  - eexists. split; [reflexivity|]. repeat split; assumption.
Qed.

Lemma kill_run s answer :
  mu s = false ->
  kill answer s
  = match kill answer (fresh (proc s)) with
    | Value r s1 => Value r (logged (log s1) s)
    | Aborted w s1 => Aborted w (logged (log s1) s)
    end.
Proof.
  intros H. handle_cases s; try discriminate H; reflexivity.
Qed.

Lemma tracked_kill answer s p sg sl :
  tracked s p sg sl ->
  returned (kill answer s) = returned (kill answer (fresh p))
  /\ sent (log (state_of (kill answer s))) = signal_to p Kill ++ sg
  /\ sleeps (log (state_of (kill answer s))) = sl.
Proof.
  intros ((Hm & Ha) & P & S & L).
  rewrite (kill_run s answer Hm), P. subst sg sl.
  destruct p as [[[? ? [[?]|]]|] ? ? ? ? ?]; repeat split.
Qed.

(** Everything [reapProcess] returns, sends and sleeps, by cases. *)
Lemma reapProcess_trace config e p :
  args p <> [] ->
  let p1 := after (meanwhile e AfterSnapshotTime) p in
  let p2 := after (meanwhile e AfterSnapshotPid) p1 in
  let p3 := after (meanwhile e DuringSleep) p2 in
  let p4 := after (meanwhile e BetweenPidReads) p3 in
  let p5 := after (meanwhile e BeforeTimeRead) p4 in
  let p6 := after (meanwhile e BeforeLogPid) p5 in
  let p7 := after (meanwhile e BeforeKill) p6 in
  let o := reapProcess config e (fresh p) in
  let go := (negb (pid_of p3 =? 0)) && (pid_of p4 =? pid_of p1)
            && (lastRestarted p5 =? lastRestarted p) in
  let interrupt := signal_to p2 Interrupt in
  let timeout := [ProcessExitTimeout config] in
  match returned (exit (exit_answer e) (fresh p2)) with
  | None =>
      returned o = None
      /\ sent (log (state_of o)) = [] /\ sleeps (log (state_of o)) = []
  | Some (Some er) =>
      returned o = Some (errs.Wrap errSupervisor (Some er))
      /\ sent (log (state_of o)) = interrupt
      /\ sleeps (log (state_of o)) = []
  | Some None =>
      if slept e then
        if go then
          returned o = returned (kill (kill_answer e) (fresh p7))
          /\ sent (log (state_of o)) = signal_to p7 Kill ++ interrupt
          /\ sleeps (log (state_of o)) = timeout
        else
          returned o = Some None
          /\ sent (log (state_of o)) = interrupt
          /\ sleeps (log (state_of o)) = timeout
      else
        returned o = Some (Some contextCanceled)
        /\ sent (log (state_of o)) = interrupt
        /\ sleeps (log (state_of o)) = timeout
  end.
Proof.
  intros Ha p1 p2 p3 p4 p5 p6 p7 o go interrupt timeout.
  subst o. unfold reapProcess.
  pose proof (tracked_fresh p Ha) as T0.
  destruct (tracked_lastRestartedTime _ _ _ _ T0) as (s1 & E1 & T1). run E1.
  destruct (tracked_yield (meanwhile e AfterSnapshotTime) _ _ _ _ T1)
    as (s2 & E2 & T2). run E2. fold p1 in T2.
  destruct (tracked_pid _ _ _ _ T2) as (s3 & E3 & T3). run E3.
  destruct (tracked_yield (meanwhile e AfterSnapshotPid) _ _ _ _ T3)
    as (s4 & E4 & T4). run E4. fold p2 in T4.
  pose proof (tracked_exit (exit_answer e) _ _ _ _ T4) as X.
  destruct (returned (exit (exit_answer e) (fresh p2))) as [[er|]|].
  - destruct X as (s5 & E5 & T5). run E5. cbn [returned state_of ret].
    rewrite app_nil_r in T5. destruct T5 as (_ & _ & S5 & L5).
    repeat split; assumption.
  - destruct X as (s5 & E5 & T5). run E5. rewrite app_nil_r in T5.
    fold interrupt in T5.
    destruct (tracked_yield (meanwhile e DuringSleep) _ _ _ _ T5)
      as (s6 & E6 & T6). run E6. fold p3 in T6.
    destruct (tracked_Sleep (ProcessExitTimeout config) (slept e) _ _ _ _ T6)
      as (s7 & E7 & T7). run E7. fold timeout in T7.
    destruct (slept e); cbn [negb].
    2: { cbn [returned state_of ret]. destruct T7 as (_ & _ & S7 & L7).
         repeat split; assumption. }
    destruct (tracked_pid _ _ _ _ T7) as (s8 & E8 & T8). run E8.
    subst go. destruct (pid_of p3 =? 0); cbn [negb andb].
    { cbn [returned state_of ret]. destruct T8 as (_ & _ & S8 & L8).
      repeat split; assumption. }
    destruct (tracked_yield (meanwhile e BetweenPidReads) _ _ _ _ T8)
      as (s9 & E9 & T9). run E9. fold p4 in T9.
    destruct (tracked_pid _ _ _ _ T9) as (s10 & E10 & T10). run E10.
    destruct (pid_of p4 =? pid_of p1); cbn [negb andb].
    2: { cbn [returned state_of ret]. destruct T10 as (_ & _ & S10 & L10).
         repeat split; assumption. }
    destruct (tracked_yield (meanwhile e BeforeTimeRead) _ _ _ _ T10)
      as (s11 & E11 & T11). run E11. fold p5 in T11.
    destruct (tracked_lastRestartedTime _ _ _ _ T11) as (s12 & E12 & T12).
    run E12.
    unfold time.Equal. destruct (lastRestarted p5 =? lastRestarted p);
      cbn [negb].
    2: { cbn [returned state_of ret]. destruct T12 as (_ & _ & S12 & L12).
         repeat split; assumption. }
    destruct (tracked_yield (meanwhile e BeforeLogPid) _ _ _ _ T12)
      as (s13 & E13 & T13). run E13. fold p6 in T13.
    destruct (tracked_pid _ _ _ _ T13) as (s14 & E14 & T14). run E14.
    destruct (tracked_yield (meanwhile e BeforeKill) _ _ _ _ T14)
      as (s15 & E15 & T15). run E15. fold p7 in T15.
    apply (tracked_kill (kill_answer e) _ _ _ _ T15).
  - destruct X as (w & s5 & E5 & S5 & L5).
    rewrite (bind_aborted _ _ _ _ _ E5). cbn [returned state_of].
    repeat split; assumption.
Qed.

(** X18. The signals of [reapProcess].  It sends the interrupt to the
    process attached when [exit] is called, if there is one, and, only when
    the decision to kill is taken, the kill to the process attached when
    [kill] is called, if there is one: nothing else, whatever the supervision
    goroutine does in between.  When that goroutine does not run between the
    second read of the pid and [kill], a kill goes only to a process whose pid
    is the snapshotted pid, on a handle whose timestamp is the snapshotted
    timestamp. *)
Theorem reap_signals (config : Config) (e : ReapEnv) (p : Process) :
  args p <> [] ->
  let p1 := after (meanwhile e AfterSnapshotTime) p in
  let p2 := after (meanwhile e AfterSnapshotPid) p1 in
  let p3 := after (meanwhile e DuringSleep) p2 in
  let p4 := after (meanwhile e BetweenPidReads) p3 in
  let p5 := after (meanwhile e BeforeTimeRead) p4 in
  let p6 := after (meanwhile e BeforeLogPid) p5 in
  let p7 := after (meanwhile e BeforeKill) p6 in
  let o := reapProcess config e (fresh p) in
  let go := (negb (pid_of p3 =? 0)) && (pid_of p4 =? pid_of p1)
            && (lastRestarted p5 =? lastRestarted p) in
  sent (log (state_of o))
  = (if exit_ok (exit_answer e) p2 && slept e && go
     then signal_to p7 Kill else [])
    ++ signal_to p2 Interrupt
  /\ (meanwhile e BeforeTimeRead = [] -> meanwhile e BeforeLogPid = [] ->
      meanwhile e BeforeKill = [] ->
      forall n, In (n, Kill) (sent (log (state_of o))) ->
                Zpos n = pid_of p1 /\ lastRestarted p7 = lastRestarted p).
Proof.
  intros Ha p1 p2 p3 p4 p5 p6 p7 o go.
  pose proof (reapProcess_trace config e p Ha) as T.
  cbv zeta in T. fold p1 p2 p3 p4 p5 p6 p7 o go in T.
  assert (E : sent (log (state_of o))
              = (if exit_ok (exit_answer e) p2 && slept e && go
                 then signal_to p7 Kill else [])
                ++ signal_to p2 Interrupt).
  { unfold exit_ok.
    destruct (returned (exit (exit_answer e) (fresh p2))) as [[er|]|] eqn:R.
    - destruct T as (_ & S & _). exact S.
    - destruct (slept e); [destruct go|]; destruct T as (_ & S & _); exact S.
    - destruct T as (_ & S & _). rewrite S.
      unfold signal_to, attached.
      destruct p2 as [[[? ? [[?]|]]|] ? ? ? ? ?]; try discriminate R;
        reflexivity. }
  split; [exact E|].
  intros H5 H6 H7 n Hin. rewrite E in Hin.
  assert (P7 : p7 = p4).
  { subst p7 p6 p5. rewrite H5, H6, H7. reflexivity. }
  assert (P5 : p5 = p4) by (subst p5; rewrite H5; reflexivity).
  apply in_app_or in Hin. destruct Hin as [Hin|Hin].
  2: { unfold signal_to in Hin. destruct (attached p2);
         [destruct Hin as [Hin|[]]; discriminate Hin | destruct Hin]. }
  destruct (exit_ok (exit_answer e) p2 && slept e && go) eqn:G;
    [|destruct Hin].
  apply andb_true_iff in G. destruct G as [_ G]. subst go.
  apply andb_true_iff in G. destruct G as [G Gt].
  apply andb_true_iff in G. destruct G as [_ Gp].
  apply Z.eqb_eq in Gp, Gt. rewrite P7. rewrite P5 in Gt.
  split; [|exact Gt].
  rewrite P7 in Hin. unfold signal_to in Hin. unfold pid_of in Gp.
  destruct (attached p4) as [pr|]; [|destruct Hin].
  destruct Hin as [Hin|[]]. inversion Hin. subst n. exact Gp.
Qed.

(** The worker ignores the interrupt: both signals go to pid 42. *)
Lemma reap_signals_witness :
  let config := {| CheckInterval := 900000000000;
                   ProcessExitTimeout := 15000000000;
                   CheckMaxSleep := 300000000000;
                   DisableProcessRestartOnExit := false;
                   DisableAutoupdate := false |} in
  let p := after [SupStart 100 (Launched 42)]
             (NewProcess 7%N "/app/bin/storagenode" "/app/config/bin"
                ["storagenode"; "run"]) in
  let e := {| exit_answer := None; kill_answer := None; slept := true;
              meanwhile := fun _ => [] |} in
  sent (log (state_of (reapProcess config e (fresh p))))
  = [(42%positive, Kill); (42%positive, Interrupt)].
Proof.
  intros config p e.
  destruct (reap_signals config e p) as [H _]; [discriminate|].
  rewrite H. reflexivity.
Defined.

(** X19. What [reapProcess] returns and how long it waits.  It sleeps once,
    for [ProcessExitTimeout], exactly when [exit] returned [nil], and not at
    all otherwise; an error of [exit] is returned at once in the class
    "supervisor"; a sleep cut short by cancellation returns the error of the
    context as it is; and when the decision to kill is taken it returns what
    [kill] returns. *)
Theorem reap_returns (config : Config) (e : ReapEnv) (p : Process) :
  args p <> [] ->
  let p1 := after (meanwhile e AfterSnapshotTime) p in
  let p2 := after (meanwhile e AfterSnapshotPid) p1 in
  let p3 := after (meanwhile e DuringSleep) p2 in
  let p4 := after (meanwhile e BetweenPidReads) p3 in
  let p5 := after (meanwhile e BeforeTimeRead) p4 in
  let p6 := after (meanwhile e BeforeLogPid) p5 in
  let p7 := after (meanwhile e BeforeKill) p6 in
  let o := reapProcess config e (fresh p) in
  let go := (negb (pid_of p3 =? 0)) && (pid_of p4 =? pid_of p1)
            && (lastRestarted p5 =? lastRestarted p) in
  sleeps (log (state_of o))
  = (if exit_ok (exit_answer e) p2 then [ProcessExitTimeout config] else [])
  /\ (forall er,
         returned (exit (exit_answer e) (fresh p2)) = Some (Some er) ->
         returned o = Some (errs.Wrap errSupervisor (Some er)))
  /\ (exit_ok (exit_answer e) p2 = true -> slept e = false ->
      returned o = Some (Some contextCanceled))
  /\ (exit_ok (exit_answer e) p2 = true -> slept e = true -> go = true ->
      returned o = returned (kill (kill_answer e) (fresh p7))).
Proof.
  intros Ha p1 p2 p3 p4 p5 p6 p7 o go.
  pose proof (reapProcess_trace config e p Ha) as T.
  cbv zeta in T. fold p1 p2 p3 p4 p5 p6 p7 o go in T.
  unfold exit_ok.
  destruct (returned (exit (exit_answer e) (fresh p2))) as [[er|]|].
  - destruct T as (R & _ & L). split; [exact L|]. split.
    + intros er0 H. inversion H. subst er0. exact R.
    + split; discriminate.
  - split.
    + destruct (slept e); [destruct go|]; apply T.
    + split; [discriminate|]. split.
      * intros _ Hs. rewrite Hs in T. apply T.
      * intros _ Hs Hg. rewrite Hs, Hg in T. apply T.
  - destruct T as (_ & _ & L). split; [exact L|].
    split; [discriminate|]. split; discriminate.
Qed.

(** The interrupt is refused: the reap ends at once with the wrapped
    error. *)
Lemma reap_returns_witness :
  let config := {| CheckInterval := 900000000000;
                   ProcessExitTimeout := 15000000000;
                   CheckMaxSleep := 300000000000;
                   DisableProcessRestartOnExit := false;
                   DisableAutoupdate := false |} in
  let p := after [SupStart 100 (Launched 42)]
             (NewProcess 7%N "/app/bin/storagenode" "/app/config/bin"
                ["storagenode"; "run"]) in
  let e := {| exit_answer := Some (ErrText "operation not permitted");
              kill_answer := None; slept := true;
              meanwhile := fun _ => [] |} in
  returned (reapProcess config e (fresh p))
  = Some (Some (ErrClass errSupervisor
                  (ErrClass errProcess (ErrText "operation not permitted")))).
Proof.
  intros config p e.
  destruct (reap_returns config e p) as (_ & H & _); [discriminate|].
  apply (H (ErrClass errProcess (ErrText "operation not permitted"))).
  reflexivity.
Defined.

(** ** The update cycle *)

(** X20. A cycle leaves the worker alone unless an update was applied: when
    the jitter sleep is cut short, or the version query fails, or [Update]
    fails or reports no change, the cycle calls no method of the handle,
    sends no signal and leaves the handle and the mutex as they were. *)
Theorem cycle_without_update_leaves_worker (config : Config) (e : CycleEnv)
    (curVersion : SemVer) (s : Shared) :
  jitter_slept e = false
  \/ (version.IsZero curVersion = true
      /\ exists er, Version (version_run e) = Err er)
  \/ update_err (update e) <> None
  \/ updated (update e) = false ->
  let o := Run_cycle config e curVersion s in
  proc (state_of o) = proc s
  /\ mu (state_of o) = mu s
  /\ calls (log (state_of o)) = calls (log s)
  /\ sent (log (state_of o)) = sent (log s).
Proof.
  intros H o. subst o. unfold Run_cycle, rand_Int63n.
  destruct (rand.Int63n (rand_src e) (CheckMaxSleep config)) as [d| |];
    [|repeat split|repeat split].
  rewrite (bind_value _ _ s d s eq_refl).
  rewrite (bind_value _ _ _ _ _ (Sleep_run d (jitter_slept e) s)).
  destruct (jitter_slept e); cbn [negb]; [|repeat split].
  destruct (version.IsZero curVersion).
  - destruct (Version (version_run e)) as [v|er]; [|repeat split].
    destruct (update_err (update e)); [repeat split|].
    destruct (updated (update e)); [|repeat split].
    exfalso. destruct H as [H|[(_ & er & H)|[H|H]]];
      try discriminate H. now apply H.
  - destruct (update_err (update e)); [repeat split|].
    destruct (updated (update e)); [|repeat split].
    exfalso. destruct H as [H|[(H & _)|[H|H]]];
      try discriminate H. now apply H.
Qed.

Lemma cycle_without_update_leaves_worker_witness :
  let config := {| CheckInterval := 900000000000;
                   ProcessExitTimeout := 15000000000;
                   CheckMaxSleep := 300000000000;
                   DisableProcessRestartOnExit := false;
                   DisableAutoupdate := false |} in
  let v123 := {| Major := 1; Minor := 2; Patch := 3; Pre := None |} in
  let e := {| rand_src := [5]; jitter_slept := true;
              version_run := Output (b "Version: 1.2.3" ++ [LF]);
              update := {| newVersion := v123; updated := false;
                           update_err := None |};
              reap := {| exit_answer := None; kill_answer := None;
                         slept := true; meanwhile := fun _ => [] |} |} in
  let s := fresh (after [SupStart 100 (Launched 42)]
                    (NewProcess 7%N "/app/bin/storagenode" "/app/config/bin"
                       ["storagenode"; "run"])) in
  let o := Run_cycle config e version.zero s in
  proc (state_of o) = proc s
  /\ mu (state_of o) = mu s
  /\ calls (log (state_of o)) = calls (log s)
  /\ sent (log (state_of o)) = sent (log s).
Proof.
  intros config v123 e s.
  apply (cycle_without_update_leaves_worker config e version.zero s).
  right. right. right. reflexivity.
Defined.

Lemma Run_cycle_cached config e r curVersion s :
  version.IsZero curVersion = false ->
  Run_cycle config (set_version_run r e) curVersion s
  = Run_cycle config e curVersion s.
Proof.
  intros H. unfold Run_cycle.
  cbn [set_version_run rand_src jitter_slept version_run update reap].
  rewrite H. reflexivity.
Qed.

Lemma Run_cycle_keeps_version config e curVersion s v s1 :
  version.IsZero curVersion = false ->
  reports_a_version (Tick e) ->
  Run_cycle config e curVersion s = Value (None, v) s1 ->
  version.IsZero v = false.
Proof.
  intros Hz Hr. unfold Run_cycle, rand_Int63n. rewrite Hz.
  destruct (rand.Int63n (rand_src e) (CheckMaxSleep config)) as [d| |];
    [|discriminate|discriminate].
  rewrite (bind_value _ _ s d s eq_refl).
  rewrite (bind_value _ _ _ _ _ (Sleep_run d (jitter_slept e) s)).
  destruct (jitter_slept e); cbn [negb]; [|discriminate].
  cbn [reports_a_version] in Hr.
  destruct (update_err (update e)).
  - intros H. inversion H. subst v. exact Hz.
  - destruct (updated (update e)).
    + unfold bind. destruct (reapProcess config (reap e) _) as [r s2|w s2];
        [|discriminate].
      intros H. inversion H. now apply Hr.
    + intros H. inversion H. subst v. exact Hz.
Qed.

Lemma Cycle_loop_tick {Env St} (fn : Env -> St -> M (option error * St))
    st e rest s :
  Cycle_loop fn st (Tick e :: rest) s
  = match fn e st s with
    | Value r s1 =>
        match fst r with
        | Some err => Value (Returned (Some err)) s1
        | None => Cycle_loop fn (snd r) rest s1
        end
    | Aborted w s1 => Aborted w s1
    end.
Proof.
  cbn [Cycle_loop]. unfold bind. destruct (fn e st s) as [r s1|w s1];
    [|reflexivity].
  destruct (fst r); reflexivity.
Qed.

(** X21. Once the version of the worker is known the updater loop does not
    ask the binary again: with a version that is not the zero value at hand,
    and as long as no applied update reports the zero version, the whole run
    of the loop is the same whatever running the binary with [version] would
    answer at any tick. *)
Theorem known_version_is_not_queried_again (config : Config) (r : ExecResult)
    (wakes : list (Wake CycleEnv)) :
  Forall reports_a_version wakes ->
  forall curVersion s,
    version.IsZero curVersion = false ->
    Cycle_loop (Run_cycle config) curVersion (map (requery r) wakes) s
    = Cycle_loop (Run_cycle config) curVersion wakes s.
Proof.
  intros F. induction F as [|w rest Hw F IH]; intros curVersion s Hz.
  - reflexivity.
  - destruct w as [e| |]; [|reflexivity|reflexivity].
    cbn [map requery]. rewrite !Cycle_loop_tick.
    rewrite (Run_cycle_cached config e r curVersion s Hz).
    destruct (Run_cycle config e curVersion s) as [[[er|] v] s1|w s1] eqn:E;
      cbn [fst snd]; try reflexivity.
    apply IH. exact (Run_cycle_keeps_version _ _ _ _ _ _ Hz Hw E).
Qed.

Lemma known_version_is_not_queried_again_witness :
  let config := {| CheckInterval := 900000000000;
                   ProcessExitTimeout := 15000000000;
                   CheckMaxSleep := 300000000000;
                   DisableProcessRestartOnExit := false;
                   DisableAutoupdate := false |} in
  let v123 := {| Major := 1; Minor := 2; Patch := 3; Pre := None |} in
  let v130 := {| Major := 1; Minor := 3; Patch := 0; Pre := None |} in
  let quietly := {| exit_answer := None; kill_answer := None; slept := true;
                    meanwhile := fun _ => [] |} in
  let idle := {| rand_src := [5]; jitter_slept := true;
                 version_run := Output (b "Version: 1.2.3" ++ [LF]);
                 update := {| newVersion := v123; updated := false;
                              update_err := None |};
                 reap := quietly |} in
  let upgrade := {| rand_src := [7]; jitter_slept := true;
                    version_run := Output (b "Version: 1.2.3" ++ [LF]);
                    update := {| newVersion := v130; updated := true;
                                 update_err := None |};
                    reap := quietly |} in
  let wakes := [Tick idle; Tick upgrade; Tick idle] in
  let s := fresh (NewProcess 7%N "/app/bin/storagenode" "/app/config/bin"
                    ["storagenode"; "run"]) in
  Cycle_loop (Run_cycle config) v123
    (map (requery (ExecFailed (ErrText "text file busy"))) wakes) s
  = Cycle_loop (Run_cycle config) v123 wakes s.
Proof.
  intros config v123 v130 quietly idle upgrade wakes s.
  apply (known_version_is_not_queried_again config
           (ExecFailed (ErrText "text file busy")) wakes).
  - repeat constructor; intros; reflexivity.
  - reflexivity.
Defined.

(** X22. The cycles of the earlier revisions.  In each of the three, the
    handle and the mutex are left as they were, and [exit] is called, once,
    exactly when the version is at hand (the query succeeded, or a version
    kept from an earlier cycle is not the zero value), [Update] returned no
    error and reported an update; the interrupt for the attached process is
    then the only signal sent.  In every other case (a failed version query, a
    failed [Update], an update not applied) no method of the handle is called
    and nothing is sent.  No cycle ever calls [kill]. *)
Theorem earlier_cycles_only_interrupt (e : OldCycleEnv) (curVersion : SemVer)
    (s : Shared) :
  let applies (q : result SemVer) : bool :=
    match q with
    | Err _ => false
    | Ok _ =>
        match update_err (old_update e) with
        | Some _ => false
        | None => updated (old_update e)
        end
    end in
  let effect (q : result SemVer) (st : Shared) : Prop :=
    proc st = proc s /\ mu st = mu s
    /\ calls (log st)
       = (if applies q then [MExit] else []) ++ calls (log s)
    /\ sent (log st)
       = (if applies q then signal_to (proc s) Interrupt else [])
         ++ sent (log s) in
  let queried :=
    if version.IsZero curVersion then Version (old_version_run e)
    else Ok curVersion in
  effect (Version (old_version_run e)) (state_of (Supervisor_Run_cycle e s))
  /\ effect queried (state_of (Supervisor_Run_cycle_cached e curVersion s))
  /\ effect queried (state_of (Manager_Run_cycle_exit e curVersion s)).
Proof.
  intros applies effect queried. subst applies effect queried. cbv beta.
  assert (E : forall A (f : option error -> A),
             let st := state_of (bind (exit (old_exit_answer e))
                                   (fun r => ret (f r)) s) in
             proc st = proc s /\ mu st = mu s
             /\ calls (log st) = [MExit] ++ calls (log s)
             /\ sent (log st) = signal_to (proc s) Interrupt ++ sent (log s)).
  { intros A f.
    destruct s as [[[[? ? [[?]|]]|] ? ? ? ? ?] m l]; repeat split. }
  unfold Supervisor_Run_cycle, Supervisor_Run_cycle_cached,
    Manager_Run_cycle_exit.
  split; [|split].
  - destruct (Version (old_version_run e)); [|repeat split].
    destruct (update_err (old_update e)); [repeat split|].
    destruct (updated (old_update e)); [|repeat split].
    exact (E _ (fun r => errs.Wrap errSupervisor r)).
  - destruct (if version.IsZero curVersion then Version (old_version_run e)
              else Ok curVersion); [|repeat split].
    destruct (update_err (old_update e)); [repeat split|].
    destruct (updated (old_update e)); [|repeat split].
    exact (E _ (fun r => (errs.Wrap errSupervisor r, version.zero))).
  - destruct (if version.IsZero curVersion then Version (old_version_run e)
              else Ok curVersion); [|repeat split].
    destruct (update_err (old_update e)); [repeat split|].
    destruct (updated (old_update e)); [|repeat split].
    exact (E _ (fun r => (errs.Wrap errSupervisor r,
                          newVersion (old_update e)))).
Qed.

Lemma power_of_two_mask n d :
  0 < n -> Z.land n (n - 1) = 0 -> 0 <= d < n -> Z.land d (n - 1) = d.
Proof.
  intros Hn Hl Hd.
  pose proof (Z.log2_spec n Hn) as [Hlo Hhi].
  pose proof (Z.log2_nonneg n) as Hk.
  set (k := Z.log2 n) in *.
  assert (E : n = 2 ^ k).
  { destruct (Z.eq_dec n (2 ^ k)) as [E|E]; [exact E|]. exfalso.
    assert (H1 : Z.log2 (n - 1) = k).
    { apply Z.log2_unique; [exact Hk|]. rewrite Z.pow_succ_r in Hhi by exact Hk.
      rewrite Z.pow_succ_r by exact Hk. lia. }
    assert (B1 : Z.testbit (n - 1) k = true).
    { rewrite <- H1. apply Z.bit_log2. assert (0 < 2 ^ k) by (apply Z.pow_pos_nonneg; lia). lia. }
    assert (B2 : Z.testbit n k = true) by (apply Z.bit_log2; exact Hn).
    assert (B : Z.testbit (Z.land n (n - 1)) k = true)
      by (rewrite Z.land_spec, B1, B2; reflexivity).
    rewrite Hl, Z.bits_0 in B. discriminate B. }
  rewrite E. replace (2 ^ k - 1) with (Z.ones k)
    by (rewrite Z.ones_equiv; lia).
  rewrite Z.land_ones by exact Hk. apply Z.mod_small. lia.
Qed.

Lemma Int63n_reaches n d rest :
  0 <= d < n -> n < 2 ^ 63 ->
  rand.Int63n (d :: rest) n = rand.Sample d.
Proof.
  intros Hd Hn. unfold rand.Int63n.
  destruct (Z.leb_spec n 0) as [H|H]; [lia|].
  assert (Hi : rand.Int63 d = d).
  { unfold rand.Int63. change rand.rngMask with (Z.ones 63).
    rewrite Z.land_ones by lia. apply Z.mod_small. lia. }
  destruct (Z.eqb_spec (Z.land n (n - 1)) 0) as [E|E].
  - rewrite Hi. f_equal. now apply power_of_two_mask.
  - cbn [rand.reject]. rewrite Hi.
    assert (Hm : 0 <= (2 ^ 63) mod n < n) by (apply Z.mod_pos_bound; lia).
    assert (Hq : 2 ^ 63 = n * (2 ^ 63 / n) + (2 ^ 63) mod n)
      by (apply Z.div_mod; lia).
    assert (Hq1 : 1 <= 2 ^ 63 / n)
      by (apply Z.div_le_lower_bound; lia).
    destruct (Z.gtb_spec d (2 ^ 63 - 1 - (2 ^ 63) mod n)) as [G|G].
    + exfalso. nia.
    + f_equal. apply Z.mod_small. lia.
Qed.

(** X23. The bound of the jitter is tight: for a [CheckMaxSleep] that fits
    an int64, every duration [d] with [0 <= d < CheckMaxSleep] is what the
    cycle sleeps first when the generator yields the word [d]. *)
Theorem jitter_reaches_every_duration (config : Config) (d : Z)
    (rest : list Z) :
  0 <= d < CheckMaxSleep config ->
  CheckMaxSleep config < 2 ^ 63 ->
  rand.Int63n (d :: rest) (CheckMaxSleep config) = rand.Sample d
  /\ forall e curVersion p,
       rand_src e = d :: rest ->
       exists later,
         rev (sleeps (log (state_of
                (Run_cycle config e curVersion (fresh p))))) = d :: later.
Proof.
  intros Hd Hn.
  pose proof (Int63n_reaches (CheckMaxSleep config) d rest Hd Hn) as R.
  split; [exact R|].
  intros e curVersion p Hs.
  remember (log (state_of (Run_cycle config e curVersion (fresh p)))) as l
    eqn:Hl.
  unfold Run_cycle, rand_Int63n in Hl. rewrite Hs, R in Hl.
  rewrite (bind_value _ _ (fresh p) d (fresh p) eq_refl) in Hl.
  rewrite (bind_value _ _ _ _ _ (Sleep_run d (jitter_slept e) (fresh p)))
    in Hl.
  match type of Hl with
  | context [state_of (?k ?s)] => assert (G : grows k)
  end.
  { destruct (jitter_slept e); cbn [negb]; [|auto with grows].
    unfold Version, binaryVersion. grows_split. }
  destruct (G (logged [EvSleep d] (fresh p))) as [evs Hevs].
  rewrite Hevs in Hl. subst l.
  cbn [log logged fresh]. rewrite sleeps_app, rev_app_distr.
  cbn. eexists. reflexivity.
Qed.

Lemma jitter_reaches_every_duration_witness :
  let config := {| CheckInterval := 900000000000;
                   ProcessExitTimeout := 15000000000;
                   CheckMaxSleep := 300000000000;
                   DisableProcessRestartOnExit := false;
                   DisableAutoupdate := false |} in
  rand.Int63n [299999999999; 1] (CheckMaxSleep config)
  = rand.Sample 299999999999.
Proof.
  intros config.
  destruct (jitter_reaches_every_duration config 299999999999 [1]) as [H _];
    [vm_compute; split; [discriminate | reflexivity]
    | vm_compute; reflexivity |].
  exact H.
Defined.

(** ** Termination without a process *)

(** C5. Termination without an attached process.  [exit] and [kill] are a
    no-op success (nil returned, handle and mutex as before, nothing sent)
    only when [p.cmd] is nil.  After a failed
    launch no process is attached either, and [pid] reads 0, but [p.cmd] is
    set: there [exit] and [kill] do not return, they panic on the nil
    [p.cmd.Process], having sent nothing and left the handle as it was. *)
Theorem termination_panics_without_process (s : Shared)
    (answer : option error) :
  (cmd (proc s) = None ->
   (exists s1, exit answer s = Value None s1
               /\ proc s1 = proc s /\ mu s1 = mu s
               /\ sent (log s1) = sent (log s))
   /\ (exists s2, kill answer s = Value None s2
                  /\ proc s2 = proc s /\ mu s2 = mu s
                  /\ sent (log s2) = sent (log s)))
  /\ (launch_failed (proc s) ->
      attached (proc s) = None
      /\ pid_of (proc s) = 0
      /\ exit answer s
         = Aborted (Panic "invalid memory address or nil pointer dereference")
             (logged [EvRead FCmd (mu s); EvRead FCmd (mu s); EvCall MExit] s)
      /\ kill answer s
         = Aborted (Panic "invalid memory address or nil pointer dereference")
             (logged [EvRead FCmd (mu s); EvRead FCmd (mu s); EvCall MKill] s)
      /\ returned (exit answer s) = None
      /\ returned (kill answer s) = None).
Proof.
  split.
  - intros H. rewrite (exit_unattached s answer H), (kill_unattached s answer H).
    split; eexists; (split; [reflexivity|]); repeat split.
  - intros H.
    rewrite (exit_launch_failed s answer H), (kill_launch_failed s answer H).
    destruct H as (c & Hc & Hp).
    assert (Ha : attached (proc s) = None)
      by (unfold attached; rewrite Hc; exact Hp).
    repeat split; try exact Ha. unfold pid_of. rewrite Ha. reflexivity.
Qed.

(** The handle a failed launch leaves: nothing attached, pid 0, and [exit]
    panics. *)
Lemma termination_panics_without_process_witness :
  let s := state_of
             (start 100 (LaunchFailed (ErrText "exec format error"))
                (fresh (NewProcess 7%N "/app/bin/storagenode"
                          "/app/config/bin" ["storagenode"; "run"]))) in
  launch_failed (proc s)
  /\ attached (proc s) = None
  /\ pid_of (proc s) = 0
  /\ returned (exit None s) = None
  /\ returned (kill None s) = None.
Proof.
  intros s.
  assert (L : launch_failed (proc s)) by (eexists; split; reflexivity).
  split; [exact L|].
  destruct (termination_panics_without_process s None) as [_ H].
  destruct (H L) as (H1 & H2 & _ & _ & H5 & H6).
  repeat split; assumption.
Defined.
